(** * bulk_upscale: the batch worker, the per-file upscale step and the start form

    A shallow embedding of [bulk_upscale.py]:
    - [upscale_image] (one file: read the header, upload with a resize
      directive, download, write),
    - [process_all_images_worker] (enumeration, the per-file loop, the progress
      queue and the cooperative stop flag),
    - [BulkUpscaleGUI.start_processing] (form validation and job start),
    - [BulkUpscaleGUI.poll_queue], [log], [_reset_ui] and [stop_processing]
      (the window's side of the queue), in [UI], with the window and its
      worker threads together in [App],
    - [save_config] and [load_config] (the settings file), in [Settings].

    The outside world (Pillow, the Cloudinary uploader, [requests], the
    filesystem, the stop flag set by the controller thread) is a record of
    oracles, [env]; what the code does to the world is threaded through a state
    and exception monad, [M], whose state holds the files, the directories and
    the ordered trace of every external call and queue push. *)

From Stdlib Require Import ZArith Lia Ascii.
From Stdlib Require Import PrimFloat FloatOps SpecFloat.
From stdpp Require Import gmap strings list pretty.

Open Scope Z_scope.

(** ** Python values *)

(** A [pathlib.Path], as the list of its components. *)
Abbreviation path := (list string).

(** [Path.parent]: the path without its final component. *)
Definition parent (p : path) : path := removelast p.

(** [Path.name]: the final component. *)
Definition name (p : path) : string := List.last p "".

(** [p / child], for a child that is a single component. *)
Definition joinpath (p : path) (child : string) : path := p ++ [child].

(** [bytes]. *)
Abbreviation bytes := (list Byte.byte).

(** The outcome of a Python call: a value, or a raised [Exception] carrying
    what [str(e)] gives. *)
Inductive result (A : Type) : Type :=
| Ret (a : A)
| Raise (msg : string).
Arguments Ret {A} a.
Arguments Raise {A} msg.

(** ** Numbers: [max(1, int(orig_w * float(scale_factor)))] *)

Module Num.

(** The conversion of an [int] operand of [int * float]: round to nearest,
    ties to even; [OverflowError] when the result is not finite. *)
Definition float_of_int (n : Z) : result float :=
  let f := SF2Prim (binary_normalize prec emax n 0 false) in
  if is_infinity f then Raise "int too large to convert to float" else Ret f.

(** [n * x] for an [int] [n] and a [float] [x]. *)
Definition int_mul_float (n : Z) (x : float) : result float :=
  match float_of_int n with
  | Ret f => Ret (f * x)%float
  | Raise e => Raise e
  end.

(** [int(x)] for a [float] [x]: truncation toward zero; [nan] and the
    infinities raise. *)
Definition int_of_float (x : float) : result Z :=
  match Prim2SF x with
  | S754_zero _ => Ret 0
  | S754_infinity _ => Raise "cannot convert float infinity to integer"
  | S754_nan => Raise "cannot convert float NaN to integer"
  | S754_finite s m e =>
      let mag := Z.shiftl (Z.pos m) e in
      Ret (if s then - mag else mag)
  end.

(** Line 90: [target_w = max(1, int(orig_w * float(scale_factor)))]. *)
Definition target_width (orig_w : Z) (scale_factor : float) : result Z :=
  match int_mul_float orig_w scale_factor with
  | Ret x =>
      match int_of_float x with
      | Ret t => Ret (Z.max 1 t)
      | Raise e => Raise e
      end
  | Raise e => Raise e
  end.

(** [round(x)] for a [float] [x], the rounding the specification names: to the
    nearest integer, ties to the even one. The code never calls it. *)
Definition py_round (x : float) : result Z :=
  match Prim2SF x with
  | S754_zero _ => Ret 0
  | S754_infinity _ => Raise "cannot convert float infinity to integer"
  | S754_nan => Raise "cannot convert float NaN to integer"
  | S754_finite s m e =>
      let mag :=
        if 0 <=? e then Z.pos m * 2 ^ e
        else
          let d := 2 ^ (- e) in
          let q := Z.pos m / d in
          let r := Z.pos m mod d in
          if 2 * r <? d then q
          else if d <? 2 * r then q + 1
          else if Z.even q then q else q + 1 in
      Ret (if s then - mag else mag)
  end.

(** The width the specification's sentence computes:
    [max(1, round(W * S))]. *)
Definition spec_target_width (orig_w : Z) (scale_factor : float) : result Z :=
  match int_mul_float orig_w scale_factor with
  | Ret x =>
      match py_round x with
      | Ret t => Ret (Z.max 1 t)
      | Raise e => Raise e
      end
  | Raise e => Raise e
  end.

End Num.

(** ** The world *)

(** What a log call records: the level and the format string. *)
Inductive log_level := LError | LWarning | LException.

(** An event on the progress queue: the tagged tuples the worker puts. *)
Inductive event :=
| Total (total : nat)                               (* ("total", total) *)
| Stopped (reason : string)                         (* ("stopped", reason) *)
| Status (text : string)                            (* ("status", text) *)
| Progress (idx : nat) (ok : bool) (detail : string) (* ("progress", (idx, ok, detail)) *)
| Done (successful total : nat).                    (* ("done", (successful, total)) *)

(** Every call that leaves the program, in the order it is made. A call is
    recorded when it is attempted, whether it then returns or raises. *)
Inductive action :=
| ImageOpen (image_path : path)
| Upload (image_path : path) (width : Z)
| HttpGet (url : string) (timeout : Z)
| Mkdir (dir : path)
| OpenWb (file : path)
| Write (file : path) (data : bytes)
| Iterdir (dir : path)
| IsSet (idx : nat)
| Put (e : event)
| Log (level : log_level) (fmt : string).

(** The filesystem and the trace. The log file [bulk_upscale.log] is not
    among [files]: what [logging] appends to it is the [Log] entries of the
    trace. *)
Record world := World {
  files : gmap path bytes;
  dirs : gset path;
  trace : list action;
}.

(** The body of an HTTP response. *)
Record http_response := HttpResponse {
  status_code : Z;
  content : bytes;
}.

(** A directory entry as [iterdir] yields it: its name and what [is_file()]
    answers for it. *)
Record dir_entry := DirEntry {
  entry_name : string;
  entry_is_file : bool;
}.

(** The behaviour of everything outside the program. *)
Record env := Env {
  (* [Image.open(p).size], or the exception of opening or closing the image *)
  image_open : path -> result (Z * Z);
  (* [cloudinary.uploader.upload(str(p), transformation=[{.. "width": w ..}])]:
     the response dictionary, or the exception *)
  upload : path -> Z -> result (gmap string string);
  (* [requests.get(url, timeout=t)] *)
  http_get : string -> Z -> result http_response;
  (* [Path.mkdir(parents=True, exist_ok=True)]: the exception, if any *)
  mkdir_fault : path -> option string;
  (* [open(p, "wb")]: the exception, if any *)
  open_fault : path -> option string;
  (* [f.write(data)] and the closing of the file: the exception, if any, with
     the number of bytes that reached the file before it *)
  write_fault : path -> option (nat * string);
  (* [Path.iterdir()] with [is_file()] asked of each entry *)
  iterdir : path -> result (list dir_entry);
  (* [stop_flag.is_set()] as read at the top of iteration [idx] *)
  stop_is_set : nat -> bool;
}.

(** ** The monad: state and exceptions *)

Definition M (A : Type) : Type := world -> result A * world.

#[global] Instance M_ret : MRet M := fun A a w => (Ret a, w).

#[global] Instance M_bind : MBind M := fun A B k m w =>
  match m w with
  | (Ret a, w') => k a w'
  | (Raise e, w') => (Raise e, w')
  end.

(** [raise]. *)
Definition throw {A} (msg : string) : M A := fun w => (Raise msg, w).

(** A pure computation that may raise. *)
Definition lift {A} (r : result A) : M A := fun w => (r, w).

(** [try: body / except Exception as e: handler(str(e))]. *)
Definition try_except {A} (body : M A) (handler : string -> M A) : M A :=
  fun w =>
    match body w with
    | (Ret a, w') => (Ret a, w')
    | (Raise e, w') => handler e w'
    end.

(** Record a call. *)
Definition emit (a : action) : M unit :=
  fun w => (Ret tt, World (files w) (dirs w) (trace w ++ [a])).

Definition logging (level : log_level) (fmt : string) : M unit :=
  emit (Log level fmt).

(** [queue.put(e)]: the queue is unbounded, the put never blocks or raises. *)
Definition queue_put (e : event) : M unit := emit (Put e).

(** The contents of the queue: the events put, in order. *)
Fixpoint queue_of (tr : list action) : list event :=
  match tr with
  | [] => []
  | Put e :: tr' => e :: queue_of tr'
  | _ :: tr' => queue_of tr'
  end.

(** ** Filesystem calls *)

(** The directory [d] and all its ancestors. *)
Definition ancestors_and_self (d : path) : list path :=
  (fun n => take n d) <$> seq 0 (S (length d)).

(** A change of the filesystem. *)
Definition modify (f : world -> world) : M unit := fun w => (Ret tt, f w).

Definition add_dirs (ds : list path) (w : world) : world :=
  World (files w) (dirs w ∪ list_to_set ds) (trace w).

Definition set_file (p : path) (data : bytes) (w : world) : world :=
  World (<[p := data]> (files w)) (dirs w) (trace w).

(** Raise the fault the environment has for a call, if it has one. *)
Definition raise_if (fault : option string) : M unit :=
  match fault with
  | Some msg => throw msg
  | None => mret tt
  end.

(** [d.mkdir(parents=True, exist_ok=True)]. *)
Definition mkdir_parents (e : env) (d : path) : M unit :=
  emit (Mkdir d);;
  raise_if (mkdir_fault e d);;
  modify (add_dirs (ancestors_and_self d)).

(** [open(p, "wb")]: the file exists and is empty once the call returns. *)
Definition open_wb (e : env) (p : path) : M unit :=
  emit (OpenWb p);;
  raise_if (open_fault e p);;
  modify (set_file p []).

(** [f.write(data)] and the closing of [f] at the end of the [with] block. *)
Definition write_all (e : env) (p : path) (data : bytes) : M unit :=
  emit (Write p data);;
  match write_fault e p with
  | Some (n, msg) => modify (set_file p (take n data));; throw msg
  | None => modify (set_file p data)
  end.

(** ** [upscale_image] *)

(** Truth value of what [dict.get] returns: [None] and [""] are false. *)
Definition truthy (v : option string) : bool :=
  match v with
  | Some s => negb (String.eqb s "")
  | None => false
  end.

(** [a or b]. *)
Definition py_or (a b : option string) : option string :=
  if truthy a then a else b.

(** Line 101: [result.get("secure_url") or result.get("url")]. *)
Definition url_of (result : gmap string string) : option string :=
  py_or (result !! "secure_url") (result !! "url").

Definition no_url_msg : string := "Cloudinary did not return a URL".

(** Lines 86-117, the body of the [try]. *)
Definition upscale_image_body (e : env) (image_path output_path : path)
    (scale_factor : float) (timeout : Z) : M (bool * string) :=
  emit (ImageOpen image_path);;
  '(orig_w, orig_h) ← lift (image_open e image_path);
  target_w ← lift (Num.target_width orig_w scale_factor);
  emit (Upload image_path target_w);;
  result ← lift (upload e image_path target_w);
  let url := url_of result in
  if negb (truthy url) then
    logging LError (no_url_msg +:+ " for %s; result=%s");;
    mret (false, no_url_msg)
  else
    emit (HttpGet (default "" url) timeout);;
    response ← lift (http_get e (default "" url) timeout);
    if status_code response =? 200 then
      mkdir_parents e (parent output_path);;
      open_wb e output_path;;
      write_all e output_path (content response);;
      mret (true, "OK")
    else
      let msg := "HTTP " +:+ pretty (status_code response) in
      logging LError "Failed to download %s: %s";;
      mret (false, msg).

(** Lines 80-121. *)
Definition upscale_image (e : env) (image_path output_path : path)
    (scale_factor : float) (timeout : Z) : M (bool * string) :=
  try_except (upscale_image_body e image_path output_path scale_factor timeout)
    (fun msg => logging LException "Error processing %s";; mret (false, msg)).

(** ** [process_all_images_worker] *)

(** [Path.suffix] of a file name, as [pathlib] defines it
    ([i = name.rfind('.')], then [name[i:]] if [0 < i < len(name) - 1]): from
    the last dot on, when that dot is neither the first nor the last
    character; empty otherwise. *)
Fixpoint rfind_dot (s : string) (i : nat) : option nat :=
  match s with
  | EmptyString => None
  | String c s' =>
      match rfind_dot s' (S i) with
      | Some j => Some j
      | None => if Ascii.eqb c "."%char then Some i else None
      end
  end.

Fixpoint drop_string (n : nat) (s : string) : string :=
  match n, s with
  | O, _ => s
  | S n', String _ s' => drop_string n' s'
  | S _, EmptyString => EmptyString
  end.

Definition suffix (nm : string) : string :=
  match rfind_dot nm 0 with
  | Some i =>
      if (0 <? i)%nat && (i <? String.length nm - 1)%nat then drop_string i nm
      else ""
  | None => ""
  end.

(** Line 128. *)
Definition supported_formats : list string :=
  [".jpg"; ".jpeg"; ".png"; ".JPG"; ".JPEG"; ".PNG"].

(** [f.is_file() and f.suffix in supported_formats]. *)
Definition is_candidate (f : dir_entry) : bool :=
  entry_is_file f && bool_decide (suffix (entry_name f) ∈ supported_formats).

(** Line 133: the candidates, in directory order. *)
Definition image_files_of (src : path) (entries : list dir_entry) : list path :=
  joinpath src <$> (entry_name <$> List.filter is_candidate entries).

(** Line 146: the text of a status event. *)
Definition status_text (idx total : nat) (nm : string) : string :=
  "[" +:+ pretty idx +:+ "/" +:+ pretty total +:+ "] " +:+ nm.

Definition stopped_reason : string := "Processing stopped by user".

(** Lines 138-153: the loop over [enumerate(image_files, start=1)], from
    position [idx] on; it returns the success counter. *)
Fixpoint worker_loop (e : env) (out : path) (scale_factor : float) (total : nat)
    (image_files : list path) (idx : nat) (successful : nat) : M nat :=
  match image_files with
  | [] => mret successful
  | image_path :: rest =>
      emit (IsSet idx);;
      if stop_is_set e idx then
        queue_put (Stopped stopped_reason);;
        mret successful
      else
        let out_name := "u" +:+ name image_path in
        let out_path := joinpath out out_name in
        queue_put (Status (status_text idx total (name image_path)));;
        '(ok, msg) ← upscale_image e image_path out_path scale_factor 60;
        if ok : bool then
          queue_put (Progress idx true (name image_path));;
          worker_loop e out scale_factor total rest (S idx) (S successful)
        else
          queue_put (Progress idx false (name image_path +:+ " -> " +:+ msg));;
          logging LWarning "Failed %s: %s";;
          worker_loop e out scale_factor total rest (S idx) successful
  end.

(** Lines 124-155. *)
Definition process_all_images_worker (e : env) (source_folder output_folder : path)
    (scale_factor : float) : M unit :=
  let src := source_folder in
  let out := output_folder in
  mkdir_parents e out;;
  emit (Iterdir src);;
  entries ← lift (iterdir e src);
  let image_files := image_files_of src entries in
  let total := length image_files in
  queue_put (Total total);;
  successful ← worker_loop e out scale_factor total image_files 1 0;
  queue_put (Done successful total).

(** ** [BulkUpscaleGUI.start_processing] *)

Module GUI.

(** [str.isspace] on one character (code points below 256). *)
Definition isspace (c : ascii) : bool :=
  let n := nat_of_ascii c in
  ((9 <=? n) && (n <=? 13) || (28 <=? n) && (n <=? 32) || (n =? 133) || (n =? 160))%nat.

Fixpoint lstrip (s : string) : string :=
  match s with
  | EmptyString => EmptyString
  | String c s' => if isspace c then lstrip s' else s
  end.

Fixpoint rstrip (s : string) : string :=
  match s with
  | EmptyString => EmptyString
  | String c s' =>
      match rstrip s' with
      | EmptyString => if isspace c then EmptyString else String c EmptyString
      | r => String c r
      end
  end.

(** [str.strip()]. *)
Definition strip (s : string) : string := rstrip (lstrip s).

(** The widgets and attributes [start_processing] reads or writes. *)
Record gui := Gui {
  entry_name : string;
  entry_key : string;
  entry_secret : string;
  entry_source : string;
  entry_output : string;
  entry_scale : string;
  save_secret_var : bool;
  btn_start_enabled : bool;
  btn_stop_enabled : bool;
  stop_flag : bool;
  progress_value : Z;
  status_var : string;
  queue : list event;
}.

(** The three Cloudinary settings, as [save_config] and
    [configure_cloudinary] receive them. *)
Record config := Config {
  cloud_name : string;
  api_key : string;
  api_secret : string;
}.

(** The arguments of the worker thread. *)
Record job := Job {
  job_source : string;
  job_output : string;
  job_scale : float;
}.

(** What [start_processing] does outside the widgets, in order. *)
Inductive effect :=
| ShowError (title message : string)     (* messagebox.showerror *)
| SaveConfig (cfg : config)              (* save_config *)
| ConfigureCloudinary (cfg : config)     (* configure_cloudinary *)
| ThreadStart (j : job).                 (* threading.Thread(...).start() *)

(** What the method asks of its surroundings: [os.path.isdir] and the builtin
    [float] on a string (the value, or [ValueError]). *)
Record gui_env := GuiEnv {
  isdir : string -> bool;
  float_of_str : string -> result float;
}.

Definition err_title : string := "Ошибка".
Definition err_credentials : string := "Введите Cloud Name и API Key".
Definition err_source : string := "Выберите существующую папку с фото".
Definition err_output : string := "Выберите папку для сохранения".
Definition err_scale : string :=
  "Неверный множитель масштаба. Используйте положительное число, например 2.0".

(** Lines 334-340: [float(scale)], with [ValueError] raised for a value that
    is [<= 0]; [None] when the [except] branch is taken. *)
Definition parse_scale (ge : gui_env) (scale : string) : option float :=
  match float_of_str ge scale with
  | Ret scale_f => if (scale_f <=? 0)%float then None else Some scale_f
  | Raise _ => None
  end.

(** Lines 313-364. *)
Definition start_processing (ge : gui_env) (g : gui) : gui * list effect :=
  let cloud_name := strip (entry_name g) in
  let api_key := strip (entry_key g) in
  let api_secret := strip (entry_secret g) in
  let source := strip (entry_source g) in
  let output := strip (entry_output g) in
  let scale := strip (entry_scale g) in
  if String.eqb cloud_name "" || String.eqb api_key "" then
    (g, [ShowError err_title err_credentials])
  else if String.eqb source "" || negb (isdir ge source) then
    (g, [ShowError err_title err_source])
  else if String.eqb output "" then
    (g, [ShowError err_title err_output])
  else
    match parse_scale ge scale with
    | None => (g, [ShowError err_title err_scale])
    | Some scale_f =>
        let cfg := Config cloud_name api_key (if save_secret_var g then api_secret else "") in
        (Gui (entry_name g) (entry_key g) (entry_secret g) (entry_source g)
             (entry_output g) (entry_scale g) (save_secret_var g)
             false true false 0 "Запуск..." (queue g),
         [SaveConfig cfg;
          ConfigureCloudinary (Config cloud_name api_key api_secret);
          ThreadStart (Job source output scale_f)])
    end.

(** An input error as the method sees it. *)
Definition input_error (ge : gui_env) (g : gui) : Prop :=
  strip (entry_name g) = "" \/
  strip (entry_key g) = "" \/
  strip (entry_source g) = "" \/
  isdir ge (strip (entry_source g)) = false \/
  strip (entry_output g) = "" \/
  (exists msg, float_of_str ge (strip (entry_scale g)) = Raise msg) \/
  (exists x, float_of_str ge (strip (entry_scale g)) = Ret x /\ (x <=? 0)%float = true).

(** An input error as the specification lists them: any of the three
    credentials missing, a missing or invalid source or destination
    directory, a scale factor that is not a number or not positive. *)
Definition spec_input_error (ge : gui_env) (g : gui) : Prop :=
  strip (entry_name g) = "" \/
  strip (entry_key g) = "" \/
  strip (entry_secret g) = "" \/
  strip (entry_source g) = "" \/
  isdir ge (strip (entry_source g)) = false \/
  strip (entry_output g) = "" \/
  (exists msg, float_of_str ge (strip (entry_scale g)) = Raise msg) \/
  (exists x, float_of_str ge (strip (entry_scale g)) = Ret x /\ (x <=? 0)%float = true).

(** The start is rejected: one error dialog, nothing else done, every widget
    and the queue as they were. *)
Definition rejected (ge : gui_env) (g : gui) : Prop :=
  exists message, start_processing ge g = (g, [ShowError err_title message]).

End GUI.

(** ** Observations on a run *)

(** The calls a run made: what it appended to the trace it started from. *)
Definition new_actions (w w' : world) : list action :=
  drop (length (trace w)) (trace w').

(** The events a run pushed. *)
Definition pushed (w w' : world) : list event := queue_of (new_actions w w').

Definition is_total (ev : event) : bool :=
  match ev with Total _ => true | _ => false end.
Definition is_stopped (ev : event) : bool :=
  match ev with Stopped _ => true | _ => false end.
Definition is_status (ev : event) : bool :=
  match ev with Status _ => true | _ => false end.
Definition is_progress (ev : event) : bool :=
  match ev with Progress _ _ _ => true | _ => false end.
Definition is_done (ev : event) : bool :=
  match ev with Done _ _ => true | _ => false end.

(** How many events of a kind a queue holds. *)
Fixpoint count (f : event -> bool) (q : list event) : nat :=
  match q with
  | [] => 0
  | ev :: q' => ((if f ev then 1 else 0) + count f q')%nat
  end.

(** The index and the success flag of every result event, in queue order. *)
Fixpoint results (q : list event) : list (nat * bool) :=
  match q with
  | [] => []
  | Progress idx ok _ :: q' => (idx, ok) :: results q'
  | _ :: q' => results q'
  end.

(** The number of results with [success = true]. *)
Fixpoint successes (rs : list (nat * bool)) : nat :=
  match rs with
  | [] => 0
  | (_, ok) :: rs' => ((if ok then 1 else 0) + successes rs')%nat
  end.

(** The queue without its status events. *)
Fixpoint without_status (q : list event) : list event :=
  match q with
  | [] => []
  | Status _ :: q' => without_status q'
  | ev :: q' => ev :: without_status q'
  end.

(** The widths of the upload requests of a trace. *)
Fixpoint uploads (tr : list action) : list (path * Z) :=
  match tr with
  | [] => []
  | Upload p width :: tr' => (p, width) :: uploads tr'
  | _ :: tr' => uploads tr'
  end.

(** The stop checks of a trace. *)
Fixpoint stop_checks (tr : list action) : list nat :=
  match tr with
  | [] => []
  | IsSet idx :: tr' => idx :: stop_checks tr'
  | _ :: tr' => stop_checks tr'
  end.

(** The images opened, in order. *)
Fixpoint opens (tr : list action) : list path :=
  match tr with
  | [] => []
  | ImageOpen p :: tr' => p :: opens tr'
  | _ :: tr' => opens tr'
  end.

(** ** What one call of [upscale_image] does, whatever world it starts from *)

Definition empty_world : world := World ∅ ∅ [].

(** What [upscale_image] returns. *)
Definition upscale_verdict (e : env) (image_path output_path : path)
    (scale_factor : float) (timeout : Z) : bool * string :=
  match (upscale_image e image_path output_path scale_factor timeout empty_world).1 with
  | Ret v => v
  | Raise msg => (false, msg)
  end.

(** The calls [upscale_image] makes. *)
Definition upscale_actions (e : env) (image_path output_path : path)
    (scale_factor : float) (timeout : Z) : list action :=
  trace (upscale_image e image_path output_path scale_factor timeout empty_world).2.

(** The calls of one iteration of the worker's loop that passes the stop
    check. *)
Definition file_block (e : env) (out : path) (scale_factor : float) (total idx : nat)
    (image_path : path) : list action :=
  let out_path := joinpath out ("u" +:+ name image_path) in
  let '(ok, msg) := upscale_verdict e image_path out_path scale_factor 60 in
  IsSet idx :: Put (Status (status_text idx total (name image_path))) ::
  upscale_actions e image_path out_path scale_factor 60 ++
  (if ok then [Put (Progress idx true (name image_path))]
   else [Put (Progress idx false (name image_path +:+ " -> " +:+ msg));
         Log LWarning "Failed %s: %s"]).

(** The calls of the loop from position [idx] on. *)
Fixpoint loop_trace (e : env) (out : path) (scale_factor : float) (total : nat)
    (image_files : list path) (idx : nat) : list action :=
  match image_files with
  | [] => []
  | image_path :: rest =>
      if stop_is_set e idx then [IsSet idx; Put (Stopped stopped_reason)]
      else file_block e out scale_factor total idx image_path
           ++ loop_trace e out scale_factor total rest (S idx)
  end.

(** The number of files the loop attempts: those before the first position at
    which the flag is seen set. *)
Fixpoint attempted (e : env) (idx n : nat) : nat :=
  match n with
  | O => O
  | S n' => if stop_is_set e idx then O else S (attempted e (S idx) n')
  end.

(** An event of the loop's body: a status or a result. *)
Definition body_event (ev : event) : Prop :=
  is_status ev = true \/ is_progress ev = true.

(** Every step of one call of [upscale_image] succeeds. *)
Definition all_steps_succeed (e : env) (image_path output_path : path)
    (scale_factor : float) (timeout : Z) : Prop :=
  exists W H target_w result response,
    image_open e image_path = Ret (W, H)
    /\ Num.target_width W scale_factor = Ret target_w
    /\ upload e image_path target_w = Ret result
    /\ truthy (url_of result) = true
    /\ http_get e (default "" (url_of result)) timeout = Ret response
    /\ status_code response = 200
    /\ mkdir_fault e (parent output_path) = None
    /\ open_fault e output_path = None
    /\ write_fault e output_path = None.

(** One call of [upscale_image] fails before the file is opened for writing:
    the header cannot be read, the width cannot be computed, the upload
    raises, the response has no usable URL, the GET raises, or it answers
    with a status other than 200. *)
Definition fails_before_write (e : env) (image_path : path)
    (scale_factor : float) (timeout : Z) : Prop :=
  (exists msg, image_open e image_path = Raise msg)
  \/ (exists W H msg,
        image_open e image_path = Ret (W, H)
        /\ Num.target_width W scale_factor = Raise msg)
  \/ (exists W H target_w,
        image_open e image_path = Ret (W, H)
        /\ Num.target_width W scale_factor = Ret target_w
        /\ ((exists msg, upload e image_path target_w = Raise msg)
            \/ (exists result,
                  upload e image_path target_w = Ret result
                  /\ (truthy (url_of result) = false
                      \/ (exists msg,
                            http_get e (default "" (url_of result)) timeout = Raise msg)
                      \/ (exists response,
                            http_get e (default "" (url_of result)) timeout = Ret response
                            /\ status_code response <> 200))))).

(** ** The sentences of the specification that the code does not satisfy *)

Module Spec.

Definition to_lower (c : ascii) : ascii :=
  let n := nat_of_ascii c in
  if ((65 <=? n) && (n <=? 90))%nat then ascii_of_nat (n + 32) else c.

Definition to_upper (c : ascii) : ascii :=
  let n := nat_of_ascii c in
  if ((97 <=? n) && (n <=? 122))%nat then ascii_of_nat (n - 32) else c.

Fixpoint map_string (f : ascii -> ascii) (s : string) : string :=
  match s with
  | EmptyString => EmptyString
  | String c s' => String (f c) (map_string f s')
  end.

(** [str.lower] and [str.upper], on ASCII letters. *)
Definition lower (s : string) : string := map_string to_lower s.
Definition upper (s : string) : string := map_string to_upper s.

(** The allow-set of the specification: jpg, jpeg, png. *)
Definition allowed_extensions : list string := [".jpg"; ".jpeg"; ".png"].

(** A candidate as the specification words it: the extension belongs to the
    allow-set, compared case-insensitively. *)
Definition case_insensitive_candidate (f : dir_entry) : bool :=
  bool_decide (lower (suffix (entry_name f)) ∈ allowed_extensions).

(** "A filesystem entry is a candidate file if and only if its extension
    belongs to the allow-set compared case-insensitively." *)
Definition candidate_iff_case_insensitive : Prop :=
  forall (src : path) (entries : list dir_entry) (f : dir_entry),
    f ∈ entries ->
    (joinpath src (entry_name f) ∈ image_files_of src entries
     <-> case_insensitive_candidate f = true).

(** "The target width passed to the transform request equals
    [max(1, round(W*S))]." *)
Definition width_is_rounded : Prop :=
  forall (e : env) (image_path output_path : path) (S : float) (timeout W H r : Z)
         (w : world),
    image_open e image_path = Ret (W, H) ->
    0 < W ->
    (0 <? S)%float = true ->
    Num.spec_target_width W S = Ret r ->
    uploads (new_actions w (upscale_image e image_path output_path S timeout w).2)
    = [(image_path, r)].

(** "Whenever the fetch step fails, no partial file is left at the final
    destination path": a destination that did not exist before a failed call
    does not exist after it. *)
Definition failure_leaves_no_file : Prop :=
  forall (e : env) (image_path output_path : path) (S : float) (timeout : Z)
         (w w' : world) (msg : string),
    files w !! output_path = None ->
    upscale_image e image_path output_path S timeout w = (Ret (false, msg), w') ->
    files w' !! output_path = None.

(** "Every start action whose inputs contain an input error is rejected
    before any job begins." *)
Definition input_errors_rejected : Prop :=
  forall (ge : GUI.gui_env) (g : GUI.gui),
    GUI.spec_input_error ge g -> GUI.rejected ge g.

End Spec.

(** ** Sample worlds *)

Module Sample.

Definition ok_response : http_response := HttpResponse 200 [Byte.x89; Byte.x50].
Definition server_error : http_response := HttpResponse 500 [].

(** Every image has the given size, every upload answers with a
    [secure_url] made from the file name, the GET of a URL in [failing]
    answers 500 and any other 200, directories can be made and files opened,
    writes fail as [wf] says, the source directory lists [entries], and the
    stop flag is set from check [stop_from] on (never, when it is 0). *)
Definition make (size : Z * Z) (entries : list dir_entry) (failing : list string)
    (stop_from : nat) (wf : option (nat * string)) : env :=
  {| image_open := fun _ => Ret size;
     upload := fun p _ => Ret {[ "secure_url" := "https://res.example/" +:+ name p ]};
     http_get := fun url _ =>
       if bool_decide (url ∈ failing) then Ret server_error else Ret ok_response;
     mkdir_fault := fun _ => None;
     open_fault := fun _ => None;
     write_fault := fun _ => wf;
     iterdir := fun _ => Ret entries;
     stop_is_set := fun idx => ((0 <? stop_from) && (stop_from <=? idx))%nat |}.

Definition file (nm : string) : dir_entry := DirEntry nm true.

Definition three_files : list dir_entry := [file "a.jpg"; file "b.png"; file "c.jpg"].

Definition five_files : list dir_entry :=
  [file "1.jpg"; file "2.jpg"; file "3.jpg"; file "4.jpg"; file "5.jpg"].

Definition src : path := ["photos"].
Definition out : path := ["upscaled"].

(** The form: valid directories and scale, with the given credentials. *)
Definition form (cloud key secret : string) : GUI.gui :=
  GUI.Gui cloud key secret "photos" "upscaled" "2.0" false true false false 0 "" [].

(** [os.path.isdir] knows one directory; [float] knows two strings. *)
Definition desktop : GUI.gui_env :=
  GUI.GuiEnv (fun d => String.eqb d "photos")
    (fun s => if String.eqb s "2.0" then Ret 2%float
              else if String.eqb s "0" then Ret 0%float
              else Raise "could not convert string to float").

(** Three candidates and a stop flag that is never set, but the output
    directory cannot be created: its name is that of a regular file, which
    the form accepts as a destination. *)
Definition output_is_a_file : env :=
  {| image_open := fun _ => Ret (1000, 750);
     upload := fun p _ => Ret {[ "secure_url" := "https://res.example/" +:+ name p ]};
     http_get := fun _ _ => Ret ok_response;
     mkdir_fault := fun _ => Some "[Errno 17] File exists: 'upscaled'";
     open_fault := fun _ => None;
     write_fault := fun _ => None;
     iterdir := fun _ => Ret three_files;
     stop_is_set := fun _ => false |}.

(** The same job, with a source directory that may not be read. *)
Definition source_not_listable : env :=
  {| image_open := fun _ => Ret (1000, 750);
     upload := fun p _ => Ret {[ "secure_url" := "https://res.example/" +:+ name p ]};
     http_get := fun _ _ => Ret ok_response;
     mkdir_fault := fun _ => None;
     open_fault := fun _ => None;
     write_fault := fun _ => None;
     iterdir := fun _ => Raise "[Errno 13] Permission denied: 'photos'";
     stop_is_set := fun _ => false |}.

End Sample.

(** ** The rest of the window: [poll_queue], [log], [_reset_ui],
    [stop_processing] *)

Module UI.

(** The line end that [log] appends. *)
Definition nl : string := String (ascii_of_nat 10) EmptyString.

(** The window: the widgets of the start form, with the maximum of the
    progress bar and the text of the log area. *)
Record window := Window {
  widgets : GUI.gui;
  progress_maximum : Z;
  log_text : string;
}.

(** What the methods do outside the widgets, in order. *)
Inductive effect :=
| Form (e : GUI.effect)                 (* what start_processing does *)
| LogInfo (text : string)               (* logging.info *)
| ShowInfo (title message : string)     (* messagebox.showinfo *)
| AskYesNo (title message : string)     (* messagebox.askyesno *)
| After (ms : Z).                       (* root.after(ms, self.poll_queue) *)

(** A method: a change of the window and the effects it has. *)
Definition act : Type := window -> window * list effect.

Definition update (f : window -> window) : act := fun win => (f win, []).

Definition perform (eff : effect) : act := fun win => (win, [eff]).

Definition and_then (a b : act) : act := fun win =>
  let '(win1, effs1) := a win in
  let '(win2, effs2) := b win1 in
  (win2, effs1 ++ effs2).

Definition with_widgets (f : GUI.gui -> GUI.gui) (win : window) : window :=
  Window (f (widgets win)) (progress_maximum win) (log_text win).

Definition set_queue (q : list event) (g : GUI.gui) : GUI.gui :=
  GUI.Gui (GUI.entry_name g) (GUI.entry_key g) (GUI.entry_secret g)
    (GUI.entry_source g) (GUI.entry_output g) (GUI.entry_scale g)
    (GUI.save_secret_var g) (GUI.btn_start_enabled g) (GUI.btn_stop_enabled g)
    (GUI.stop_flag g) (GUI.progress_value g) (GUI.status_var g) q.

Definition set_status (text : string) (g : GUI.gui) : GUI.gui :=
  GUI.Gui (GUI.entry_name g) (GUI.entry_key g) (GUI.entry_secret g)
    (GUI.entry_source g) (GUI.entry_output g) (GUI.entry_scale g)
    (GUI.save_secret_var g) (GUI.btn_start_enabled g) (GUI.btn_stop_enabled g)
    (GUI.stop_flag g) (GUI.progress_value g) text (GUI.queue g).

Definition set_progress_value (v : Z) (g : GUI.gui) : GUI.gui :=
  GUI.Gui (GUI.entry_name g) (GUI.entry_key g) (GUI.entry_secret g)
    (GUI.entry_source g) (GUI.entry_output g) (GUI.entry_scale g)
    (GUI.save_secret_var g) (GUI.btn_start_enabled g) (GUI.btn_stop_enabled g)
    (GUI.stop_flag g) v (GUI.status_var g) (GUI.queue g).

Definition set_buttons (start stop : bool) (g : GUI.gui) : GUI.gui :=
  GUI.Gui (GUI.entry_name g) (GUI.entry_key g) (GUI.entry_secret g)
    (GUI.entry_source g) (GUI.entry_output g) (GUI.entry_scale g)
    (GUI.save_secret_var g) start stop
    (GUI.stop_flag g) (GUI.progress_value g) (GUI.status_var g) (GUI.queue g).

Definition set_stop_flag (b : bool) (g : GUI.gui) : GUI.gui :=
  GUI.Gui (GUI.entry_name g) (GUI.entry_key g) (GUI.entry_secret g)
    (GUI.entry_source g) (GUI.entry_output g) (GUI.entry_scale g)
    (GUI.save_secret_var g) (GUI.btn_start_enabled g) (GUI.btn_stop_enabled g)
    b (GUI.progress_value g) (GUI.status_var g) (GUI.queue g).

Definition set_progress_maximum (m : Z) (win : window) : window :=
  Window (widgets win) m (log_text win).

(** Lines 403-408, [log]. *)
Definition log (text : string) : act :=
  and_then (perform (LogInfo text))
    (update (fun win =>
       Window (widgets win) (progress_maximum win) (log_text win +:+ text +:+ nl))).

(** Lines 410-414, [_reset_ui]. *)
Definition reset_ui : act :=
  update (with_widgets (fun g =>
    set_progress_value 0 (set_status "Готов" (set_buttons true false g)))).

Definition total_line (total : nat) : string := "Всего файлов: " +:+ pretty total.

Definition result_line (idx : nat) (ok : bool) (msg : string) : string :=
  if ok then "[" +:+ pretty idx +:+ "] OK: " +:+ msg
  else "[" +:+ pretty idx +:+ "] ERROR: " +:+ msg.

Definition done_line (successful total : nat) : string :=
  "Готово: " +:+ pretty successful +:+ "/" +:+ pretty total.

Definition done_message (successful total : nat) : string :=
  "✅ Успешно обработано: " +:+ pretty successful +:+ "/" +:+ pretty total
  +:+ " файлов.".

(** Lines 376-397: what [poll_queue] does with one item. *)
Definition handle (item : event) : act :=
  match item with
  | Total total =>
      and_then (update (set_progress_maximum (Z.max 1 (Z.of_nat total))))
        (log (total_line total))
  | Status text => update (with_widgets (set_status text))
  | Progress idx ok msg =>
      and_then (update (with_widgets (set_progress_value (Z.of_nat idx))))
        (log (result_line idx ok msg))
  | Stopped reason => log reason
  | Done successful total =>
      and_then (log (done_line successful total))
        (and_then (perform (ShowInfo "Готово" (done_message successful total)))
           reset_ui)
  end.

(** Lines 374-375: the [while True] loop, which ends when [get_nowait]
    raises [Empty]; [q] is what the queue holds. *)
Fixpoint drain (q : list event) : act :=
  match q with
  | [] => update (fun win => win)
  | item :: rest =>
      and_then (update (with_widgets (set_queue rest)))
        (and_then (handle item) (drain rest))
  end.

(** The items of [q] handled one after the other, the queue left alone. *)
Fixpoint handle_all (q : list event) : act :=
  match q with
  | [] => update (fun win => win)
  | item :: rest => and_then (handle item) (handle_all rest)
  end.

(** Lines 372-401, [poll_queue]. *)
Definition poll_queue : act := fun win =>
  and_then (drain (GUI.queue (widgets win))) (perform (After 200)) win.

(** Lines 366-370, [stop_processing]; [answer] is what the user tells
    [askyesno]. *)
Definition stop_processing (answer : bool) : act :=
  and_then (perform (AskYesNo "Подтверждение" "Остановить обработку?"))
    (if answer then
       update (with_widgets (fun g =>
         set_buttons (GUI.btn_start_enabled g) false
           (set_status "Ожидание остановки..." (set_stop_flag true g))))
     else update (fun win => win)).

(** [start_processing], on the window. *)
Definition start_processing (ge : GUI.gui_env) : act := fun win =>
  let '(g, effs) := GUI.start_processing ge (widgets win) in
  (Window g (progress_maximum win) (log_text win), Form <$> effs).

(** The worker thread puts [evs] on the queue. *)
Definition deliver (evs : list event) (win : window) : window :=
  with_widgets (fun g => set_queue (GUI.queue g ++ evs) g) win.

(** The log lines of a list of effects. *)
Fixpoint log_lines (effs : list effect) : list string :=
  match effs with
  | [] => []
  | LogInfo text :: effs' => text :: log_lines effs'
  | _ :: effs' => log_lines effs'
  end.

(** The dialogs of a list of effects. *)
Fixpoint info_dialogs (effs : list effect) : list string :=
  match effs with
  | [] => []
  | ShowInfo _ message :: effs' => message :: info_dialogs effs'
  | _ :: effs' => info_dialogs effs'
  end.

(** The line [poll_queue] logs for an item, if it logs one. *)
Definition line_of (item : event) : option string :=
  match item with
  | Total total => Some (total_line total)
  | Status _ => None
  | Progress idx ok msg => Some (result_line idx ok msg)
  | Stopped reason => Some reason
  | Done successful total => Some (done_line successful total)
  end.

(** The dialog [poll_queue] shows for an item, if it shows one. *)
Definition dialog_of (item : event) : option string :=
  match item with
  | Done successful total => Some (done_message successful total)
  | _ => None
  end.

(** Lines, each with its line end, as the log area holds them. *)
Fixpoint lines_text (lines : list string) : string :=
  match lines with
  | [] => ""
  | line :: rest => line +:+ nl +:+ lines_text rest
  end.

(** [str.isspace] on a whole string: every character is a space (the empty
    string included, unlike Python's). *)
Fixpoint all_space (s : string) : bool :=
  match s with
  | EmptyString => true
  | String c s' => GUI.isspace c && all_space s'
  end.

End UI.

(** ** The settings file: [save_config], [load_config] *)

Module Settings.

#[local] Set Warnings "-register-all".

(** A Python value as [json] reads and writes it; a number is kept as it is
    spelled, the pairs of a [dict] in insertion order. *)
Inductive value :=
| VNone
| VBool (b : bool)
| VNumber (spelling : string)
| VStr (s : string)
| VList (items : list value)
| VDict (pairs : list (string * value)).

(** Line 30. *)
Definition CONFIG_FILE : path := ["config.json"].

(** Line 67: the dictionary [load_config] falls back to. *)
Definition default_config : value :=
  VDict [("cloud_name", VStr ""); ("api_key", VStr ""); ("api_secret", VStr "")].

(** Lines 343-347: the dictionary [start_processing] hands to
    [save_config]. *)
Definition dict_of (cfg : GUI.config) : value :=
  VDict [("cloud_name", VStr (GUI.cloud_name cfg));
         ("api_key", VStr (GUI.api_key cfg));
         ("api_secret", VStr (GUI.api_secret cfg))].

(** The [json] module and the file calls, as the two functions use them. *)
Record io := Io {
  (* [json.dump(data, f, indent=2, ensure_ascii=False)] on a text file in
     utf-8: the bytes it writes and, if it raises, the exception it raises
     after them *)
  dump : value -> bytes * option string;
  (* [json.load(f)] on a file that holds these bytes *)
  load : bytes -> result value;
  (* [open(CONFIG_FILE, "w", ...)]: the exception, if any *)
  open_write_fault : option string;
  (* writing and closing: the exception, if any, with the number of bytes
     that reached the file before it *)
  write_fault : option (nat * string);
  (* [open(CONFIG_FILE, "r", ...)] and the reading: the exception, if any *)
  read_fault : option string;
}.

(** The files and directories: those of the [world]. *)
Record disk := Disk {
  disk_files : gmap path bytes;
  disk_dirs : gset path;
}.

Definition put_file (p : path) (data : bytes) (d : disk) : disk :=
  Disk (<[p := data]> (disk_files d)) (disk_dirs d).

(** [os.path.exists]. *)
Definition path_exists (p : path) (d : disk) : bool :=
  bool_decide (is_Some (disk_files d !! p)) || bool_decide (p ∈ disk_dirs d).

(** Lines 53-54, the body of the [try] of [save_config]. *)
Definition save_config_body (sys : io) (data : value) (d : disk) : result unit * disk :=
  match open_write_fault sys with
  | Some msg => (Raise msg, d)
  | None =>
      let '(written, exn) := dump sys data in
      match write_fault sys with
      | Some (n, msg) => (Raise msg, put_file CONFIG_FILE (take n written) d)
      | None =>
          match exn with
          | Some msg => (Raise msg, put_file CONFIG_FILE written d)
          | None => (Ret tt, put_file CONFIG_FILE written d)
          end
      end
  end.

(** Lines 51-56, [save_config]: the disk after it, and what it logs. *)
Definition save_config (sys : io) (data : value) (d : disk) : disk * list action :=
  match save_config_body sys data d with
  | (Ret _, d') => (d', [])
  | (Raise _, d') => (d', [Log LException "Failed saving config: %s"])
  end.

(** Lines 62-63, the body of the [try] of [load_config]. *)
Definition load_config_body (sys : io) (d : disk) : result value :=
  match read_fault sys with
  | Some msg => Raise msg
  | None =>
      match disk_files d !! CONFIG_FILE with
      | Some data => load sys data
      | None => Raise "Is a directory"
      end
  end.

(** Lines 59-67, [load_config]: what it returns, and what it logs. *)
Definition load_config (sys : io) (d : disk) : value * list action :=
  if path_exists CONFIG_FILE d then
    match load_config_body sys d with
    | Ret v => (v, [])
    | Raise _ => (default_config, [Log LException "Failed loading config"])
    end
  else (default_config, []).

(** What a start does to the disk: each [save_config] among its effects. *)
Definition apply_effect (sys : io) (eff : GUI.effect) (d : disk) : disk :=
  match eff with
  | GUI.SaveConfig cfg => (save_config sys (dict_of cfg) d).1
  | _ => d
  end.

Definition disk_after_start (sys : io) (ge : GUI.gui_env) (g : GUI.gui) (d : disk) : disk :=
  foldl (fun d eff => apply_effect sys eff d) d (GUI.start_processing ge g).2.

(** The form with another secret typed in. *)
Definition with_secret (secret : string) (g : GUI.gui) : GUI.gui :=
  GUI.Gui (GUI.entry_name g) (GUI.entry_key g) secret
    (GUI.entry_source g) (GUI.entry_output g) (GUI.entry_scale g)
    (GUI.save_secret_var g) (GUI.btn_start_enabled g) (GUI.btn_stop_enabled g)
    (GUI.stop_flag g) (GUI.progress_value g) (GUI.status_var g) (GUI.queue g).

End Settings.

(** ** More observations on a trace *)

(** The URLs fetched, in order, with the timeout of each request. *)
Fixpoint gets (tr : list action) : list (string * Z) :=
  match tr with
  | [] => []
  | HttpGet url timeout :: tr' => (url, timeout) :: gets tr'
  | _ :: tr' => gets tr'
  end.

(** A trace without its log records: the calls to Pillow, Cloudinary,
    [requests] and the filesystem, and the queue puts. *)
Fixpoint calls (tr : list action) : list action :=
  match tr with
  | [] => []
  | Log _ _ :: tr' => calls tr'
  | a :: tr' => a :: calls tr'
  end.

(** Lines 143-144: where the worker has [upscale_image] write a file. *)
Definition out_path (out image_path : path) : path :=
  joinpath out ("u" +:+ name image_path).

(** ** The window and its worker threads together *)

Module App.

(** The window, and for every worker thread that still has something to put
    on the queue, what it has left to put. *)
Record state := State {
  window : UI.window;
  workers : list (list event);
}.

(** What can happen next: a click on Start (with the run that the thread it
    starts will make, if it starts one), a click on Stop with the user's
    answer, the next put of worker [i], the timer that polls the queue. *)
Inductive op :=
| UserStart (ge : GUI.gui_env) (e : env) (src out : path) (sc : float) (w : world)
| UserStop (answer : bool)
| WorkerPut (i : nat)
| TimerPoll.

(** [start_processing] has started a thread. *)
Definition started (effs : list GUI.effect) : bool :=
  existsb (fun eff => match eff with GUI.ThreadStart _ => true | _ => false end) effs.

(** A thread that puts nothing is over at once. *)
Definition add_worker (evs : list event) (ws : list (list event)) : list (list event) :=
  match evs with
  | [] => ws
  | _ => ws ++ [evs]
  end.

(** A disabled button does not call its command; a thread is over once it
    has made its last put. *)
Definition step (o : op) (st : state) : state :=
  let win := window st in
  match o with
  | UserStart ge e src out sc w =>
      if GUI.btn_start_enabled (UI.widgets win) then
        let effs := (GUI.start_processing ge (UI.widgets win)).2 in
        State (UI.start_processing ge win).1
          (if started effs
           then add_worker (pushed w (process_all_images_worker e src out sc w).2)
                  (workers st)
           else workers st)
      else st
  | UserStop answer =>
      if GUI.btn_stop_enabled (UI.widgets win)
      then State (UI.stop_processing answer win).1 (workers st)
      else st
  | WorkerPut i =>
      match workers st !! i with
      | Some (ev :: rest) =>
          State (UI.deliver [ev] win)
            (match rest with
             | [] => delete i (workers st)
             | _ => <[i := rest]> (workers st)
             end)
      | _ => st
      end
  | TimerPoll => State (UI.poll_queue win).1 (workers st)
  end.

Definition run (ops : list op) (st : state) : state :=
  foldl (fun st o => step o st) st ops.

(** What a worker has left to put ends with its [done], and holds no other. *)
Definition ends_with_done (evs : list event) : Prop :=
  exists body successful total,
    evs = body ++ [Done successful total] /\ count is_done body = 0%nat.

(** What the Start button guards. *)
Definition guarded (st : state) : Prop :=
  (length (workers st) <= 1)%nat
  /\ (workers st <> [] ->
      GUI.btn_start_enabled (UI.widgets (window st)) = false
      /\ count is_done (GUI.queue (UI.widgets (window st))) = 0%nat)
  /\ (GUI.btn_start_enabled (UI.widgets (window st)) = true ->
      count is_done (GUI.queue (UI.widgets (window st))) = 0%nat)
  /\ Forall ends_with_done (workers st).

End App.

(** ** Sample windows, settings and runs *)

Module Scenario.

(** A codec that knows two values: the empty dictionary and [None]. *)
Definition braces : bytes := [Byte.x7b; Byte.x7d].
Definition null : bytes := [Byte.x6e; Byte.x75; Byte.x6c; Byte.x6c].

Definition codec (wf : option (nat * string)) : Settings.io :=
  {| Settings.dump := fun v =>
       (match v with Settings.VDict [] => braces | _ => null end, None);
     Settings.load := fun data =>
       match data with
       | [Byte.x7b; Byte.x7d] => Ret (Settings.VDict [])
       | [Byte.x6e; Byte.x75; Byte.x6c; Byte.x6c] => Ret Settings.VNone
       | _ => Raise "Expecting value"
       end;
     Settings.open_write_fault := None;
     Settings.write_fault := wf;
     Settings.read_fault := None |}.

Definition empty_disk : Settings.disk := Settings.Disk ∅ ∅.

(** A disk with a settings file that holds [null]. *)
Definition old_disk : Settings.disk := Settings.Disk {[ Settings.CONFIG_FILE := null ]} ∅.

(** The window before a job: the form filled in, the bar at 0 of 100. *)
Definition window : UI.window := UI.Window (Sample.form "demo" "key" "secret") 100 "".

Definition idle : App.state := App.State window [].

(** Three files, the second of which fails, and nobody stops. *)
Definition three : env :=
  Sample.make (1000, 750) Sample.three_files ["https://res.example/b.png"] 0 None.

(** As [three], but the output directory cannot be created. *)
Definition locked : env :=
  {| image_open := image_open three;
     upload := upload three;
     http_get := http_get three;
     mkdir_fault := fun _ => Some "Permission denied";
     open_fault := open_fault three;
     write_fault := write_fault three;
     iterdir := iterdir three;
     stop_is_set := stop_is_set three |}.

(** An upload that answers with a plain [url] only. *)
Definition plain_url : env :=
  {| image_open := image_open three;
     upload := fun p _ => Ret {[ "url" := "http://res.example/" +:+ name p ]};
     http_get := http_get three;
     mkdir_fault := mkdir_fault three;
     open_fault := open_fault three;
     write_fault := write_fault three;
     iterdir := iterdir three;
     stop_is_set := stop_is_set three |}.

(** A session: Start, the worker puts twice, the timer polls, Stop is
    confirmed, Start is clicked again, the timer polls. *)
Definition session : list App.op :=
  [App.UserStart Sample.desktop three Sample.src Sample.out 2 empty_world;
   App.WorkerPut 0; App.WorkerPut 0; App.TimerPoll; App.UserStop true;
   App.UserStart Sample.desktop three Sample.src Sample.out 2 empty_world;
   App.TimerPoll].

End Scenario.

(** * Proofs *)

(** ** Running the monad *)

Ltac unfold_monad :=
  unfold mkdir_parents, open_wb, write_all, raise_if, logging, queue_put, throw in *;
  unfold mbind, M_bind, mret, M_ret, emit, lift, modify, try_except, add_dirs, set_file in *;
  simpl in *.

Ltac cascade :=
  repeat match goal with
         | |- context [match ?x with _ => _ end] =>
             lazymatch x with
             | context [match _ with _ => _ end] => fail
             | _ => destruct x eqn:?; simpl
             end
         end.

(** ** Traces and queues *)

Lemma queue_of_app tr1 tr2 : queue_of (tr1 ++ tr2) = queue_of tr1 ++ queue_of tr2.
Proof.
  induction tr1 as [|a tr1 IH]; simpl; [done|].
  destruct a; simpl; rewrite ?IH; done.
Qed.

Lemma results_app q1 q2 : results (q1 ++ q2) = results q1 ++ results q2.
Proof.
  induction q1 as [|ev q1 IH]; simpl; [done|].
  destruct ev; simpl; rewrite ?IH; done.
Qed.

Lemma successes_app r1 r2 : successes (r1 ++ r2) = (successes r1 + successes r2)%nat.
Proof.
  induction r1 as [|[i ok] r1 IH]; simpl; [done|]. rewrite IH. lia.
Qed.

Lemma count_app f q1 q2 : count f (q1 ++ q2) = (count f q1 + count f q2)%nat.
Proof. induction q1 as [|ev q1 IH]; simpl; [done|]. rewrite IH. lia. Qed.

Lemma without_status_app q1 q2 :
  without_status (q1 ++ q2) = without_status q1 ++ without_status q2.
Proof.
  induction q1 as [|ev q1 IH]; simpl; [done|].
  destruct ev; simpl; rewrite ?IH; done.
Qed.

Lemma uploads_app tr1 tr2 : uploads (tr1 ++ tr2) = uploads tr1 ++ uploads tr2.
Proof.
  induction tr1 as [|a tr1 IH]; simpl; [done|].
  destruct a; simpl; rewrite ?IH; done.
Qed.

Lemma stop_checks_app tr1 tr2 : stop_checks (tr1 ++ tr2) = stop_checks tr1 ++ stop_checks tr2.
Proof.
  induction tr1 as [|a tr1 IH]; simpl; [done|].
  destruct a; simpl; rewrite ?IH; done.
Qed.

Create Rewrite HintDb trace.
#[global] Hint Rewrite queue_of_app results_app successes_app count_app
  without_status_app uploads_app stop_checks_app : trace.

Lemma new_actions_app (w : world) fs ds tr :
  new_actions w (World fs ds (trace w ++ tr)) = tr.
Proof. unfold new_actions. simpl. apply drop_app_length. Qed.

Lemma queue_of_nil_not_put tr ev : queue_of tr = [] -> Put ev ∉ tr.
Proof.
  induction tr as [|a tr IH]; simpl; intros Hq Hin; [by apply elem_of_nil in Hin|].
  apply elem_of_cons in Hin as [<-|Hin]; [discriminate|].
  destruct a; try discriminate; by apply IH.
Qed.

Lemma results_without_status q : results (without_status q) = results q.
Proof.
  induction q as [|ev q IH]; simpl; [done|]. destruct ev; simpl; rewrite ?IH; done.
Qed.

Lemma length_results q : length (results q) = count is_progress q.
Proof.
  induction q as [|ev q IH]; simpl; [done|]. destruct ev; simpl; rewrite ?IH; done.
Qed.

Lemma count_body_0 f q :
  (forall ev, body_event ev -> f ev = false) -> Forall body_event q -> count f q = 0%nat.
Proof.
  intros Hf. induction 1 as [|ev q Hev _ IH]; simpl; [done|].
  rewrite (Hf ev Hev), IH. done.
Qed.

Lemma without_status_body q :
  Forall body_event q -> Forall (fun ev => is_progress ev = true) (without_status q).
Proof.
  induction 1 as [|ev q [Hev|Hev] _ IH]; simpl; [constructor| |];
    destruct ev; simpl in *; try discriminate; try done; constructor; done.
Qed.

(** ** One call of [upscale_image] *)

Lemma upscale_image_run e ip op sc t w :
  exists fs' ds',
    upscale_image e ip op sc t w
    = (Ret (upscale_verdict e ip op sc t),
       World fs' ds' (trace w ++ upscale_actions e ip op sc t)).
Proof.
  unfold upscale_verdict, upscale_actions, upscale_image, upscale_image_body.
  unfold_monad.
  cascade; do 2 eexists; rewrite <- ?app_assoc; reflexivity.
Qed.

Lemma upscale_image_new_actions e ip op sc t w :
  new_actions w (upscale_image e ip op sc t w).2 = upscale_actions e ip op sc t.
Proof.
  destruct (upscale_image_run e ip op sc t w) as (f1 & d1 & ->).
  simpl. apply new_actions_app.
Qed.

Lemma upscale_actions_shape e ip op sc t :
  exists rest, upscale_actions e ip op sc t = ImageOpen ip :: rest
               /\ queue_of rest = [] /\ stop_checks rest = [].
Proof.
  unfold upscale_actions, upscale_image, upscale_image_body. unfold_monad.
  cascade; eexists; (split; [reflexivity|]); simpl; done.
Qed.

Lemma opens_app tr1 tr2 : opens (tr1 ++ tr2) = opens tr1 ++ opens tr2.
Proof.
  induction tr1 as [|a tr1 IH]; simpl; [done|]. destruct a; simpl; rewrite ?IH; done.
Qed.

(** Two cuts of a trace at the opening of an image, with as many images
    opened before the one as before the other, are the same cut. *)
Lemma cut_at_open pre : forall pre' p p' post post',
  pre ++ ImageOpen p :: post = pre' ++ ImageOpen p' :: post' ->
  length (opens pre) = length (opens pre') ->
  pre = pre' /\ p = p' /\ post = post'.
Proof.
  induction pre as [|a pre IH]; intros [|a' pre'] p p' post post' Heq Hlen; simpl in *.
  - by injection Heq as -> ->.
  - injection Heq as <- _. simpl in Hlen. discriminate.
  - injection Heq as -> _. simpl in Hlen. discriminate.
  - injection Heq as <- Heq.
    destruct (IH pre' p p' post post' Heq) as (-> & -> & ->); [|done].
    destruct a; simpl in Hlen; lia.
Qed.

Lemma upscale_actions_opens e ip op sc t : opens (upscale_actions e ip op sc t) = [ip].
Proof.
  unfold upscale_actions, upscale_image, upscale_image_body. unfold_monad.
  cascade; reflexivity.
Qed.

Lemma upscale_image_outcome e ip op sc t w :
  exists ok msg w',
    upscale_image e ip op sc t w = (Ret (ok, msg), w')
    /\ (ok = true -> all_steps_succeed e ip op sc t /\ msg = "OK").
Proof.
  unfold all_steps_succeed, upscale_image, upscale_image_body. unfold_monad.
  destruct (image_open e ip) as [[W H]|m] eqn:Hopen; simpl;
    [|eexists _, _, _; split; [reflexivity|discriminate]].
  destruct (Num.target_width W sc) as [tw|m] eqn:Hw; simpl;
    [|eexists _, _, _; split; [reflexivity|discriminate]].
  destruct (upload e ip tw) as [d|m] eqn:Hup; simpl;
    [|eexists _, _, _; split; [reflexivity|discriminate]].
  destruct (truthy _) eqn:Hurl; simpl;
    [|eexists _, _, _; split; [reflexivity|discriminate]].
  destruct (http_get e _ t) as [resp|m] eqn:Hget; simpl;
    [|eexists _, _, _; split; [reflexivity|discriminate]].
  destruct (status_code resp =? 200) eqn:Hst; simpl;
    [|eexists _, _, _; split; [reflexivity|discriminate]].
  destruct (mkdir_fault e _) eqn:Hmk; simpl;
    [eexists _, _, _; split; [reflexivity|discriminate]|].
  destruct (open_fault e _) eqn:Hop; simpl;
    [eexists _, _, _; split; [reflexivity|discriminate]|].
  destruct (write_fault e _) as [[n m]|] eqn:Hwr; simpl;
    [eexists _, _, _; split; [reflexivity|discriminate]|].
  eexists _, _, _; split; [reflexivity|]. intros _. split; [|done].
  apply Z.eqb_eq in Hst.
  exists W, H, tw, d, resp. repeat split; done.
Qed.

Lemma upscale_image_success e ip op sc t w :
  all_steps_succeed e ip op sc t ->
  exists w', upscale_image e ip op sc t w = (Ret (true, "OK"), w').
Proof.
  intros (W & H & tw & d & resp & Hopen & Hw & Hup & Hurl & Hget & Hst & Hmk & Hop & Hwr).
  unfold upscale_image, upscale_image_body in *. unfold_monad.
  rewrite Hopen. simpl. rewrite Hw. simpl. rewrite Hup. simpl. rewrite Hurl. simpl.
  rewrite Hget. simpl. rewrite Hst. simpl. rewrite Hmk. simpl. rewrite Hop. simpl.
  rewrite Hwr. simpl. eauto.
Qed.

(** ** The target width *)

Lemma int_of_float_truncates x t :
  Num.int_of_float x = Ret t ->
  match Prim2SF x with
  | S754_finite s m ex =>
      Z.abs t = (if 0 <=? ex then Z.pos m * 2 ^ ex else Z.pos m / 2 ^ (- ex))
      /\ (if s then t <= 0 else 0 <= t)
  | S754_zero _ => t = 0
  | _ => False
  end.
Proof.
  unfold Num.int_of_float. destruct (Prim2SF x) as [s| | |s m ex]; try discriminate.
  - intros [= <-]. done.
  - intros [= <-].
    assert (Hmag : Z.shiftl (Z.pos m) ex
                   = if 0 <=? ex then Z.pos m * 2 ^ ex else Z.pos m / 2 ^ (- ex)).
    { destruct (Z.leb_spec 0 ex).
      - apply Z.shiftl_mul_pow2. done.
      - rewrite <- (Z.opp_involutive ex) at 1. rewrite Z.shiftl_opp_r.
        apply Z.shiftr_div_pow2. lia. }
    assert (0 <= Z.shiftl (Z.pos m) ex) by (apply Z.shiftl_nonneg; lia).
    rewrite <- Hmag. destruct s; split; lia.
Qed.

Lemma upscale_uploads e ip op sc t W H tw :
  image_open e ip = Ret (W, H) ->
  Num.target_width W sc = Ret tw ->
  uploads (upscale_actions e ip op sc t) = [(ip, tw)].
Proof.
  intros Hopen Hw. unfold upscale_actions, upscale_image, upscale_image_body.
  unfold_monad. rewrite Hopen. simpl. rewrite Hw. simpl.
  cascade; reflexivity.
Qed.

(** C1 (as amended). For every image whose header gives width [W] and every
    scale factor [S] for which [W * S] is a finite float [x], the width passed
    to the upload request is [max(1, int(x))]: [x] truncated toward zero, not
    rounded, and clamped to 1 from below. *)
Theorem upload_width_is_truncated e ip op S timeout W H x t w :
  image_open e ip = Ret (W, H) ->
  Num.int_mul_float W S = Ret x ->
  Num.int_of_float x = Ret t ->
  uploads (new_actions w (upscale_image e ip op S timeout w).2) = [(ip, Z.max 1 t)]
  /\ match Prim2SF x with
     | S754_finite s m ex =>
         Z.abs t = (if 0 <=? ex then Z.pos m * 2 ^ ex else Z.pos m / 2 ^ (- ex))
         /\ (if s then t <= 0 else 0 <= t)
     | S754_zero _ => t = 0
     | _ => False
     end.
Proof.
  intros Hopen Hx Ht. split; [|by apply int_of_float_truncates].
  rewrite upscale_image_new_actions.
  apply (upscale_uploads e ip op S timeout W H); [done|].
  unfold Num.target_width. rewrite Hx, Ht. done.
Qed.

(** W=1000, S=2.0 gives 2000, and W=3, S=0.1 gives 1. *)
Lemma upload_width_is_truncated_witness :
  uploads (new_actions empty_world
             (upscale_image (Sample.make (1000, 750) [] [] 0 None)
                ["photos"; "a.jpg"] ["upscaled"; "ua.jpg"] 2 60 empty_world).2)
  = [(["photos"; "a.jpg"], 2000)]
  /\ uploads (new_actions empty_world
                (upscale_image (Sample.make (3, 2) [] [] 0 None)
                   ["photos"; "a.jpg"] ["upscaled"; "ua.jpg"] 0x1.999999999999ap-4 60
                   empty_world).2)
     = [(["photos"; "a.jpg"], 1)].
Proof.
  split.
  - apply (upload_width_is_truncated (Sample.make (1000, 750) [] [] 0 None)
             ["photos"; "a.jpg"] ["upscaled"; "ua.jpg"] 2 60 1000 750 2000%float 2000
             empty_world); reflexivity.
  - apply (upload_width_is_truncated (Sample.make (3, 2) [] [] 0 None)
             ["photos"; "a.jpg"] ["upscaled"; "ua.jpg"] 0x1.999999999999ap-4 60 3 2
             0x1.3333333333334p-2%float 0 empty_world); reflexivity.
Defined.

(** C1 (as stated) fails: for W=3 and S=0.5 the product is 1.5, which rounds
    to 2, and the width uploaded is 1. *)
Lemma width_is_not_rounded : ~ Spec.width_is_rounded.
Proof.
  intros Hclaim.
  specialize (Hclaim (Sample.make (3, 2) [] [] 0 None)
                ["photos"; "a.jpg"] ["upscaled"; "ua.jpg"] 0.5%float 60 3 2 2
                empty_world).
  vm_compute in Hclaim.
  specialize (Hclaim eq_refl eq_refl eq_refl eq_refl). discriminate.
Qed.

(** ** The fetch step *)

Ltac split_trace Heq pre :=
  repeat (destruct pre as [|? pre]; simplify_eq/=).

(** C6 (as amended). Once the upload has returned a usable URL, a call whose
    fetch step fails before a byte is written leaves the destination as it
    was: when the GET raises (a timeout is one such fault) or answers with a
    status other than 200, when the parent directory of the destination
    cannot be created, and when the destination cannot be opened,
    [upscale_image] returns [(False, message)] and no file of [files] is
    created or changed; for the status the message is ["HTTP <code>"]. A
    failed call changes a file only when the write itself breaks, and then
    the destination holds the bytes that had been written. Every failed call
    ends with a record in the log, which is kept in the trace and is no file
    of [files]. And whenever the destination is opened or written, its
    parent directory tree has been created before. *)
Theorem fetch_failure_before_write e ip op sc t w W H tw d :
  image_open e ip = Ret (W, H) ->
  Num.target_width W sc = Ret tw ->
  upload e ip tw = Ret d ->
  truthy (url_of d) = true ->
  let url := default "" (url_of d) in
  let r := upscale_image e ip op sc t w in
  let tr := new_actions w r.2 in
  (forall msg, http_get e url t = Raise msg ->
     r.1 = Ret (false, msg) /\ files r.2 = files w /\ dirs r.2 = dirs w)
  /\ (forall resp, http_get e url t = Ret resp -> status_code resp <> 200 ->
        r.1 = Ret (false, "HTTP " +:+ pretty (status_code resp))
        /\ files r.2 = files w /\ dirs r.2 = dirs w)
  /\ (forall resp msg, http_get e url t = Ret resp -> status_code resp = 200 ->
        mkdir_fault e (parent op) = Some msg ->
        r.1 = Ret (false, msg) /\ files r.2 = files w)
  /\ (forall resp msg, http_get e url t = Ret resp -> status_code resp = 200 ->
        mkdir_fault e (parent op) = None ->
        open_fault e op = Some msg ->
        r.1 = Ret (false, msg) /\ files r.2 = files w)
  /\ (forall msg, r.1 = Ret (false, msg) ->
        (files r.2 = files w
         \/ exists resp n,
              http_get e url t = Ret resp /\ status_code resp = 200
              /\ mkdir_fault e (parent op) = None /\ open_fault e op = None
              /\ write_fault e op = Some (n, msg)
              /\ files r.2 = <[op := take n (content resp)]> (files w))
        /\ exists level fmt, last tr = Some (Log level fmt))
  /\ (forall pre a post,
        tr = pre ++ a :: post ->
        (a = OpenWb op \/ exists data, a = Write op data) ->
        Mkdir (parent op) ∈ pre
        /\ mkdir_fault e (parent op) = None
        /\ (forall dir, dir ∈ ancestors_and_self (parent op) -> dir ∈ dirs r.2)).
Proof.
  intros Hopen Hw Hup Hurl url r tr. subst url r tr.
  unfold new_actions, upscale_image, upscale_image_body. unfold_monad.
  rewrite Hopen. simpl. rewrite Hw. simpl. rewrite Hup. simpl. rewrite Hurl. simpl.
  destruct (http_get e (default "" (url_of d)) t) as [resp|m] eqn:Hget; simpl.
  2:{ rewrite <- !app_assoc, drop_app_length.
      split; [by intros ? [= <-]|]. do 3 (split; [discriminate|]).
      split; [intros ? _; split; [by left|by eauto]|].
      intros pre a post Heq Ha. exfalso.
      destruct Ha as [->|[data ->]]; split_trace Heq pre. }
  split; [discriminate|].
  destruct (status_code resp =? 200) eqn:Hst; simpl.
  2:{ rewrite <- !app_assoc, drop_app_length.
      apply Z.eqb_neq in Hst.
      split; [by intros ? [= <-]|].
      do 2 (split; [by intros ? ? [= <-]|]).
      split; [intros ? _; split; [by left|by eauto]|].
      intros pre a post Heq Ha. exfalso.
      destruct Ha as [->|[data ->]]; split_trace Heq pre. }
  apply Z.eqb_eq in Hst.
  split; [intros ? [= <-]; done|].
  destruct (mkdir_fault e (parent op)) eqn:Hmk; simpl.
  { rewrite <- !app_assoc, drop_app_length.
    split; [by intros ? ? [= <-] _ [= <-]|]. split; [discriminate|].
    split; [intros ? _; split; [by left|by eauto]|].
    intros pre a post Heq Ha. exfalso.
    destruct Ha as [->|[data ->]]; split_trace Heq pre. }
  split; [discriminate|].
  assert (Hdirs : forall ds : gset path, forall dir,
            dir ∈ ancestors_and_self (parent op) ->
            dir ∈ ds ∪ list_to_set (ancestors_and_self (parent op))).
  { intros ds dir Hdir. apply elem_of_union_r, elem_of_list_to_set. done. }
  destruct (open_fault e op) eqn:Hop; simpl.
  { rewrite <- !app_assoc, drop_app_length.
    split; [by intros ? ? [= <-] _ _ [= <-]|].
    split; [intros ? _; split; [by left|by eauto]|].
    intros pre a post Heq Ha.
    destruct Ha as [->|[data ->]]; split_trace Heq pre;
      (split; [set_solver|split; [done|apply Hdirs]]). }
  split; [discriminate|].
  destruct (write_fault e op) as [[n m]|] eqn:Hwr; simpl.
  - rewrite <- !app_assoc, drop_app_length.
    split.
    { intros ? [= <-]. split; [|by eauto]. right. exists resp, n.
      rewrite insert_insert_eq. done. }
    intros pre a post Heq Ha.
    destruct Ha as [->|[data ->]]; split_trace Heq pre;
      (split; [set_solver|split; [done|apply Hdirs]]).
  - rewrite <- !app_assoc, drop_app_length.
    split; [discriminate|].
    intros pre a post Heq Ha.
    destruct Ha as [->|[data ->]]; split_trace Heq pre;
      (split; [set_solver|split; [done|apply Hdirs]]).
Qed.

(** A GET that answers 500 leaves the filesystem alone and is reported as
    ["HTTP 500"]. *)
Lemma fetch_failure_before_write_witness :
  let e := Sample.make (1000, 750) [] ["https://res.example/b.png"] 0 None in
  let r := upscale_image e ["photos"; "b.png"] ["upscaled"; "ub.png"] 2 60 empty_world in
  r.1 = Ret (false, "HTTP 500") /\ files r.2 = files empty_world
  /\ dirs r.2 = dirs empty_world.
Proof.
  intros e r.
  destruct (fetch_failure_before_write e ["photos"; "b.png"] ["upscaled"; "ub.png"]
              2 60 empty_world 1000 750 2000
              {[ "secure_url" := "https://res.example/b.png" ]}
              eq_refl eq_refl eq_refl eq_refl) as (_ & Hstatus & _).
  apply (Hstatus Sample.server_error); [reflexivity|discriminate].
Defined.

(** C6 (as stated) fails: when the write breaks after one byte of a two-byte
    body, the call fails and a one-byte file is left at a destination that
    did not exist before. *)
Lemma failed_write_leaves_partial_file : ~ Spec.failure_leaves_no_file.
Proof.
  intros Hclaim.
  pose (e := Sample.make (1000, 750) [] [] 0 (Some (1%nat, "No space left on device"))).
  specialize (Hclaim e ["photos"; "a.jpg"] ["upscaled"; "ua.jpg"] 2%float 60
                empty_world
                (upscale_image e ["photos"; "a.jpg"] ["upscaled"; "ua.jpg"] 2 60
                   empty_world).2
                "No space left on device").
  assert (Hleft :
    files (upscale_image e ["photos"; "a.jpg"] ["upscaled"; "ua.jpg"] 2 60 empty_world).2
      !! ["upscaled"; "ua.jpg"] = Some [Byte.x89]) by (vm_compute; reflexivity).
  rewrite Hclaim in Hleft; [discriminate|reflexivity|].
  vm_compute. reflexivity.
Qed.

(** C10. When [upscale_image] fails before the file is opened for writing
    (the header cannot be read, the upload raises, the response has no usable
    URL, or the GET answers with a status other than 200; also when the width
    cannot be computed or the GET raises), it returns [(False, message)] and
    every file and directory is as it was. *)
Theorem failure_before_write_keeps_files e ip op sc t w :
  fails_before_write e ip sc t ->
  exists msg w',
    upscale_image e ip op sc t w = (Ret (false, msg), w')
    /\ files w' = files w
    /\ dirs w' = dirs w.
Proof.
  unfold fails_before_write, upscale_image, upscale_image_body. unfold_monad.
  intros [(msg & ->)|[(W & H & msg & -> & Hw)|(W & H & tw & -> & Hw & Hrest)]]; simpl.
  - eauto.
  - rewrite Hw. simpl. eauto.
  - rewrite Hw. simpl.
    destruct Hrest as [(msg & ->)|(d & -> & Hrest)]; simpl; [eauto|].
    destruct Hrest as [->|[(msg & Hget)|(resp & Hget & Hst)]]; simpl; [eauto| |].
    + destruct (truthy _); simpl; [|eauto]. rewrite Hget. simpl. eauto.
    + destruct (truthy _); simpl; [|eauto]. rewrite Hget. simpl.
      apply Z.eqb_neq in Hst. rewrite Hst. simpl. eauto.
Qed.

(** A GET that answers 500: nothing is written. *)
Lemma failure_before_write_keeps_files_witness :
  let e := Sample.make (1000, 750) [] ["https://res.example/b.png"] 0 None in
  exists msg w',
    upscale_image e ["photos"; "b.png"] ["upscaled"; "ub.png"] 2 60 empty_world
    = (Ret (false, msg), w')
    /\ files w' = files empty_world /\ dirs w' = dirs empty_world.
Proof.
  intros e.
  apply (failure_before_write_keeps_files e ["photos"; "b.png"] ["upscaled"; "ub.png"]
           2 60 empty_world).
  right; right. exists 1000, 750, 2000. do 2 (split; [reflexivity|]).
  right. exists {[ "secure_url" := "https://res.example/b.png" ]}.
  split; [reflexivity|]. right; right. exists Sample.server_error.
  split; [reflexivity|discriminate].
Defined.

(** ** The stop flag *)

Lemma attempted_le e n : forall idx, (attempted e idx n <= n)%nat.
Proof.
  induction n as [|n IH]; intros idx; simpl; [lia|].
  destruct (stop_is_set e idx); [lia|]. specialize (IH (S idx)). lia.
Qed.

Lemma attempted_all e n :
  forall idx, (forall i, stop_is_set e i = false) -> attempted e idx n = n.
Proof.
  induction n as [|n IH]; intros idx H; simpl; [done|].
  rewrite H, IH; done.
Qed.

Lemma attempted_before e n : forall idx k,
  (idx <= k < idx + n)%nat -> stop_is_set e k = true ->
  (attempted e idx n <= k - idx)%nat.
Proof.
  induction n as [|n IH]; intros idx k Hk Hs; simpl; [lia|].
  destruct (stop_is_set e idx) eqn:Hi; [lia|].
  assert (k <> idx) by (intros ->; congruence).
  specialize (IH (S idx) k ltac:(lia) Hs). lia.
Qed.

(** ** The loop *)

Arguments upscale_image : simpl never.

Section Loop.

Context (e : env) (out : path) (sc : float) (total : nat).

Lemma file_block_shape idx p :
  exists mid ok d lg,
    file_block e out sc total idx p
    = IsSet idx :: Put (Status (status_text idx total (name p))) :: ImageOpen p ::
      mid ++ Put (Progress idx ok d) :: lg
    /\ queue_of mid = [] /\ stop_checks mid = []
    /\ queue_of lg = [] /\ stop_checks lg = [].
Proof.
  unfold file_block.
  destruct (upscale_actions_shape e p (joinpath out ("u" +:+ name p)) sc 60)
    as (rest & -> & Hq & Hs).
  destruct (upscale_verdict _ _ _ _ _) as [[] msg]; simpl;
    eexists rest, _, _, _; (split; [reflexivity|]); done.
Qed.

Lemma queue_of_file_block idx p :
  exists ok d,
    queue_of (file_block e out sc total idx p)
    = [Status (status_text idx total (name p)); Progress idx ok d]
    /\ ok = (upscale_verdict e p (joinpath out ("u" +:+ name p)) sc 60).1.
Proof.
  unfold file_block.
  destruct (upscale_actions_shape e p (joinpath out ("u" +:+ name p)) sc 60)
    as (rest & -> & Hq & _).
  destruct (upscale_verdict _ _ _ _ _) as [[] msg]; simpl;
    rewrite queue_of_app, Hq; simpl; eauto.
Qed.

Lemma worker_loop_run fs : forall idx s w,
  exists fs' ds',
    worker_loop e out sc total fs idx s w
    = (Ret (s + successes (results (queue_of (loop_trace e out sc total fs idx))))%nat,
       World fs' ds' (trace w ++ loop_trace e out sc total fs idx)).
Proof.
  induction fs as [|p fs IH]; intros idx s w.
  - simpl. destruct w as [f d tr]. exists f, d. unfold mret, M_ret. simpl.
    rewrite app_nil_r, Nat.add_0_r. done.
  - simpl. unfold_monad.
    destruct (stop_is_set e idx) eqn:Hstop; simpl.
    + exists (files w), (dirs w). rewrite Nat.add_0_r. rewrite <- app_assoc. reflexivity.
    + set (w1 := World _ _ _).
      destruct (upscale_image_run e p (joinpath out ("u" +:+ name p)) sc 60 w1)
        as (f1 & d1 & Hrun).
      rewrite Hrun. unfold file_block.
      destruct (upscale_verdict e p _ sc 60) as [[] msg] eqn:Hv; simpl.
      * set (w2 := World _ _ _).
        destruct (IH (S idx) (S s) w2) as (f2 & d2 & ->).
        do 2 eexists. f_equal; [f_equal|].
        -- autorewrite with trace.
           destruct (upscale_actions_shape e p (joinpath out ("u" +:+ name p)) sc 60)
             as (rest & -> & Hq & _). simpl. rewrite Hq. simpl. lia.
        -- subst w2 w1. simpl. f_equal. rewrite <- ?app_assoc. simpl.
           rewrite <- ?app_assoc. reflexivity.
      * set (w2 := World _ _ _).
        destruct (IH (S idx) s w2) as (f2 & d2 & ->).
        do 2 eexists. f_equal; [f_equal|].
        -- autorewrite with trace.
           destruct (upscale_actions_shape e p (joinpath out ("u" +:+ name p)) sc 60)
             as (rest & -> & Hq & _). simpl. rewrite Hq. simpl. lia.
        -- subst w2 w1. simpl. f_equal. rewrite <- ?app_assoc. simpl.
           rewrite <- ?app_assoc. reflexivity.
Qed.

(** The events of the loop: a body of status and result events, closed by the
    stop notice when the loop breaks. *)
Lemma loop_queue_split fs : forall idx,
  let k := attempted e idx (length fs) in
  exists body,
    queue_of (loop_trace e out sc total fs idx)
    = body ++ (if decide (k < length fs)%nat then [Stopped stopped_reason] else [])
    /\ Forall body_event body
    /\ (results body).*1 = seq idx k
    /\ count is_status body = k.
Proof.
  induction fs as [|p fs IH]; intros idx; simpl.
  - exists []. simpl. repeat split; constructor.
  - destruct (stop_is_set e idx) eqn:Hstop; simpl.
    + exists []. simpl. repeat split; constructor.
    + destruct (IH (S idx)) as (body & Hq & Hbody & Hres & Hst).
      destruct (queue_of_file_block idx p) as (ok & d & Hblk & _).
      exists (Status (status_text idx total (name p)) :: Progress idx ok d :: body).
      rewrite queue_of_app, Hblk, Hq. simpl. repeat split.
      * f_equal. f_equal. f_equal. repeat case_decide; try done; lia.
      * constructor; [left; done|]. constructor; [right; done|]. done.
      * f_equal. exact Hres.
      * f_equal. exact Hst.
Qed.

(** Every result event of the loop closes a block that its status event
    opened: the status is followed at once by the opening of the image, and
    nothing is pushed between that and the result. *)
Lemma loop_result_has_status fs : forall idx0 idx ok d,
  Put (Progress idx ok d) ∈ loop_trace e out sc total fs idx0 ->
  exists pre p mid post,
    loop_trace e out sc total fs idx0
    = pre ++ Put (Status (status_text idx total (name p))) :: ImageOpen p ::
      mid ++ Put (Progress idx ok d) :: post
    /\ queue_of mid = []
    /\ (idx0 <= idx)%nat
    /\ fs !! (idx - idx0)%nat = Some p.
Proof.
  induction fs as [|p fs IH]; intros idx0 idx ok d Hin; simpl in *.
  - by apply elem_of_nil in Hin.
  - destruct (stop_is_set e idx0).
    + apply elem_of_cons in Hin as [?|Hin]; [discriminate|].
      apply list_elem_of_singleton in Hin. discriminate.
    + destruct (file_block_shape idx0 p)
        as (mid & ok0 & d0 & lg & Hblk & Hmid & _ & Hlg & _).
      rewrite Hblk in Hin |- *.
      apply elem_of_app in Hin as [Hin|Hin].
      * apply elem_of_cons in Hin as [?|Hin]; [discriminate|].
        apply elem_of_cons in Hin as [?|Hin]; [discriminate|].
        apply elem_of_cons in Hin as [?|Hin]; [discriminate|].
        apply elem_of_app in Hin as [Hin|Hin];
          [by apply queue_of_nil_not_put in Hin|].
        apply elem_of_cons in Hin as [Heq|Hin];
          [|by apply queue_of_nil_not_put in Hin].
        injection Heq as -> -> ->.
        exists [IsSet idx0], p, mid, (lg ++ loop_trace e out sc total fs (S idx0)).
        rewrite Nat.sub_diag. repeat split; [|done..]. simpl.
        rewrite <- app_assoc. reflexivity.
      * destruct (IH _ _ _ _ Hin) as (pre & p' & mid' & post & -> & Hq & Hle & Hp).
        eexists (_ ++ pre), p', mid', post. repeat split; [|done|lia|].
        -- rewrite <- app_assoc. reflexivity.
        -- replace (idx - idx0)%nat with (S (idx - S idx0)) by lia. done.
Qed.

(** Once the flag is read as set, no status event follows. *)
Lemma loop_no_status_after_stop fs : forall idx0 tail pre idx post,
  loop_trace e out sc total fs idx0 ++ tail = pre ++ IsSet idx :: post ->
  stop_is_set e idx = true ->
  stop_checks tail = [] ->
  count is_status (queue_of post) = count is_status (queue_of tail).
Proof.
  induction fs as [|p fs IH]; intros idx0 tail pre idx post Heq Hstop Htail; simpl in *.
  - rewrite Heq, stop_checks_app in Htail. simpl in Htail.
    by apply app_nil in Htail as [_ ?].
  - destruct (stop_is_set e idx0) eqn:H0.
    + destruct pre as [|a [|b pre]]; simpl in *.
      * injection Heq as _ <-. done.
      * injection Heq as _ Heq. discriminate.
      * injection Heq as _ _ Heq. rewrite Heq, stop_checks_app in Htail.
        simpl in Htail. by apply app_nil in Htail as [_ ?].
    + rewrite <- app_assoc in Heq.
      apply app_eq_app in Heq as [l [[Hb Hl]|[Hp Hl]]].
      * destruct l as [|a l]; simpl in *.
        -- rewrite app_nil_r in Hb. symmetry in Hl.
           eapply (IH (S idx0) tail [] idx post); done.
        -- injection Hl as <- Hl. exfalso.
           destruct (file_block_shape idx0 p)
             as (mid & ok0 & d0 & lg & Hblk & _ & Hmid & _ & Hlg).
           apply (f_equal stop_checks) in Hb. rewrite Hblk in Hb.
           simpl in Hb. rewrite !stop_checks_app in Hb. simpl in Hb.
           rewrite Hmid, Hlg in Hb. simpl in Hb.
           destruct (stop_checks pre) as [|x [|y r]]; simpl in Hb; try discriminate.
           injection Hb as -> _. congruence.
      * symmetry in Hl. eapply (IH (S idx0) tail l idx post); done.
Qed.

End Loop.

Section LoopOpens.

Context (e : env) (out : path) (sc : float) (total : nat).

Lemma file_block_cut idx p :
  exists mid ok d lg,
    file_block e out sc total idx p
    = IsSet idx :: Put (Status (status_text idx total (name p))) :: ImageOpen p ::
      mid ++ Put (Progress idx ok d) :: lg
    /\ queue_of mid = [] /\ opens mid = [] /\ opens lg = []
    /\ ImageOpen p :: mid = upscale_actions e p (joinpath out ("u" +:+ name p)) sc 60.
Proof.
  unfold file_block.
  pose proof (upscale_actions_opens e p (joinpath out ("u" +:+ name p)) sc 60) as Hopens.
  destruct (upscale_actions_shape e p (joinpath out ("u" +:+ name p)) sc 60)
    as (rest & Hshape & Hq & _).
  rewrite Hshape in Hopens |- *. simpl in Hopens.
  assert (opens rest = []) by congruence.
  destruct (upscale_verdict _ _ _ _ _) as [[] msg]; simpl;
    eexists rest, _, _, _; (split; [reflexivity|]); done.
Qed.

Lemma file_block_opens idx p : opens (file_block e out sc total idx p) = [p].
Proof.
  destruct (file_block_cut idx p) as (mid & ok & d & lg & -> & _ & Hmid & Hlg & _).
  simpl. rewrite opens_app, Hmid. simpl. by rewrite Hlg.
Qed.

Lemma loop_trace_opens fs : forall idx,
  opens (loop_trace e out sc total fs idx) = take (attempted e idx (length fs)) fs.
Proof.
  induction fs as [|p fs IH]; intros idx; simpl; [done|].
  destruct (stop_is_set e idx); simpl; [done|].
  by rewrite opens_app, IH, file_block_opens.
Qed.

(** Every file the loop attempts has its stretch of the trace: its status,
    at once the opening of the file, the rest of its processing, its
    result. *)
Lemma loop_file_has_status fs : forall idx0 i p,
  fs !! i = Some p ->
  (i < attempted e idx0 (length fs))%nat ->
  exists pre mid ok d post,
    loop_trace e out sc total fs idx0
    = pre ++ Put (Status (status_text (idx0 + i) total (name p))) :: ImageOpen p ::
      mid ++ Put (Progress (idx0 + i) ok d) :: post
    /\ queue_of mid = [] /\ opens mid = []
    /\ length (opens pre) = i
    /\ ImageOpen p :: mid = upscale_actions e p (joinpath out ("u" +:+ name p)) sc 60.
Proof.
  induction fs as [|p0 fs IH]; intros idx0 i p Hi Hlt; simpl in *; [done|].
  destruct (stop_is_set e idx0); [lia|].
  destruct i as [|i]; simpl in Hi.
  - injection Hi as ->.
    destruct (file_block_cut idx0 p) as (mid & ok & d & lg & -> & Hq & Hmid & _ & Hact).
    exists [IsSet idx0], mid, ok, d, (lg ++ loop_trace e out sc total fs (S idx0)).
    rewrite Nat.add_0_r. split; [|done]. simpl. rewrite <- app_assoc. reflexivity.
  - destruct (IH (S idx0) i p Hi) as (pre & mid & ok & d & post & -> & Hq & Hmid & Hpre & Hact);
      [lia|].
    exists (file_block e out sc total idx0 p0 ++ pre), mid, ok, d, post.
    replace (idx0 + S i)%nat with (S idx0 + i)%nat by lia.
    split; [by rewrite <- app_assoc|]. split; [done|]. split; [done|]. split; [|done].
    rewrite opens_app, file_block_opens, length_app. simpl. lia.
Qed.

End LoopOpens.

(** ** The worker *)

Lemma worker_run e src out sc w entries :
  mkdir_fault e out = None ->
  iterdir e src = Ret entries ->
  let fs := image_files_of src entries in
  let lt := loop_trace e out sc (length fs) fs 1 in
  exists fs' ds',
    process_all_images_worker e src out sc w
    = (Ret tt,
       World fs' ds'
         (trace w ++ Mkdir out :: Iterdir src :: Put (Total (length fs)) ::
          lt ++ [Put (Done (successes (results (queue_of lt))) (length fs))])).
Proof.
  intros Hmk Hit fs lt. unfold process_all_images_worker. unfold_monad.
  rewrite Hmk, Hit. simpl. fold fs.
  set (w1 := World _ _ _).
  destruct (worker_loop_run e out sc (length fs) fs 1 0 w1) as (f1 & d1 & ->).
  exists f1, d1. subst w1 lt. simpl. f_equal. f_equal.
  rewrite <- ?app_assoc. simpl. rewrite <- ?app_assoc. reflexivity.
Qed.

Lemma worker_pushed e src out sc w entries :
  mkdir_fault e out = None ->
  iterdir e src = Ret entries ->
  let fs := image_files_of src entries in
  let lq := queue_of (loop_trace e out sc (length fs) fs 1) in
  pushed w (process_all_images_worker e src out sc w).2
  = Total (length fs) :: lq ++ [Done (successes (results lq)) (length fs)].
Proof.
  intros Hmk Hit fs lq.
  destruct (worker_run e src out sc w entries Hmk Hit) as (f1 & d1 & ->).
  unfold pushed. simpl. rewrite new_actions_app. simpl.
  rewrite queue_of_app. reflexivity.
Qed.

(** A run of the worker either dies creating the output directory, or dies
    listing the source directory, or goes through the loop and returns. *)
Lemma worker_run_cases e src out sc w :
  let r := process_all_images_worker e src out sc w in
  (exists msg, mkdir_fault e out = Some msg /\ r.1 = Raise msg
               /\ new_actions w r.2 = [Mkdir out])
  \/ (exists msg, mkdir_fault e out = None /\ iterdir e src = Raise msg
                  /\ r.1 = Raise msg /\ new_actions w r.2 = [Mkdir out; Iterdir src])
  \/ (exists entries,
        mkdir_fault e out = None /\ iterdir e src = Ret entries /\ r.1 = Ret tt
        /\ let fs := image_files_of src entries in
           let lt := loop_trace e out sc (length fs) fs 1 in
           new_actions w r.2
           = Mkdir out :: Iterdir src :: Put (Total (length fs)) ::
             lt ++ [Put (Done (successes (results (queue_of lt))) (length fs))]).
Proof.
  intros r. subst r.
  destruct (mkdir_fault e out) as [msg|] eqn:Hmk.
  { left. exists msg. unfold process_all_images_worker. unfold_monad.
    rewrite Hmk. simpl. unfold new_actions. simpl. by rewrite drop_app_length. }
  destruct (iterdir e src) as [entries|msg] eqn:Hit.
  - right; right. exists entries.
    destruct (worker_run e src out sc w entries Hmk Hit) as (f1 & d1 & ->).
    simpl. rewrite new_actions_app. done.
  - right; left. exists msg. unfold process_all_images_worker. unfold_monad.
    rewrite Hmk, Hit. simpl. unfold new_actions. simpl.
    rewrite <- app_assoc, drop_app_length. done.
Qed.

(** C3. The claim fails on the code: a job with three candidate files, during
    which the stop flag is never set, whose destination has the name of a
    regular file. [out.mkdir] raises at line 131, outside any [try] and
    before the first [queue.put]: the worker ends with the exception and has
    pushed nothing, neither [Total 3], nor a result, nor [Done]. *)
Theorem worker_dies_creating_output :
  let e := Sample.output_is_a_file in
  let r := process_all_images_worker e Sample.src Sample.out 2 empty_world in
  iterdir e Sample.src = Ret Sample.three_files
  /\ length (image_files_of Sample.src Sample.three_files) = 3%nat
  /\ (forall idx, stop_is_set e idx = false)
  /\ r.1 = Raise "[Errno 17] File exists: 'upscaled'"
  /\ new_actions empty_world r.2 = [Mkdir Sample.out]
  /\ pushed empty_world r.2 = [].
Proof. vm_compute. repeat split. Qed.

(** C8. The claim fails on the code, by the same defect: in a run in which
    the output directory cannot be created (line 131) or the source
    directory cannot be listed (line 133), the worker ends with the
    exception before its first [queue.put]; no [Total] and no [Done] is ever
    pushed. *)
Theorem worker_dies_without_done :
  (let r := process_all_images_worker Sample.output_is_a_file Sample.src Sample.out 2
              empty_world in
   r.1 = Raise "[Errno 17] File exists: 'upscaled'"
   /\ count is_total (pushed empty_world r.2) = 0%nat
   /\ count is_done (pushed empty_world r.2) = 0%nat
   /\ last (pushed empty_world r.2) = None)
  /\ (let r := process_all_images_worker Sample.source_not_listable Sample.src Sample.out 2
                 empty_world in
      r.1 = Raise "[Errno 13] Permission denied: 'photos'"
      /\ count is_total (pushed empty_world r.2) = 0%nat
      /\ count is_done (pushed empty_world r.2) = 0%nat
      /\ last (pushed empty_world r.2) = None).
Proof. vm_compute. repeat split. Qed.

(** X22. For every job whose output directory can be created and whose
    source directory can be listed, with N candidate files (N = 0 included),
    and during which the stop flag is never seen set, the worker pushes,
    status events apart, one [Total N], then N result events with the
    indices 1..N in increasing order, then one [Done (successful, N)] with
    [successful] the number of results that carry [True]; for N = 0 the queue
    is [Total 0] followed at once by [Done (0, 0)]. *)
Theorem worker_without_cancellation e src out sc w entries :
  mkdir_fault e out = None ->
  iterdir e src = Ret entries ->
  (forall idx, stop_is_set e idx = false) ->
  let N := length (image_files_of src entries) in
  let q := pushed w (process_all_images_worker e src out sc w).2 in
  exists rs,
    without_status q = Total N :: rs ++ [Done (successes (results rs)) N]
    /\ Forall (fun ev => is_progress ev = true) rs
    /\ (results rs).*1 = seq 1 N
    /\ (N = 0%nat -> q = [Total 0; Done 0 0]).
Proof.
  intros Hmk Hit Hstop N q. subst q.
  rewrite (worker_pushed e src out sc w entries Hmk Hit). fold N.
  destruct (loop_queue_split e out sc N (image_files_of src entries) 1)
    as (body & Hq & Hbody & Hres & _).
  rewrite attempted_all in Hq, Hres by done. fold N in Hq, Hres.
  case_decide; [lia|]. rewrite app_nil_r in Hq.
  exists (without_status body). rewrite Hq. simpl.
  rewrite without_status_app, results_without_status. simpl.
  repeat split; [by apply without_status_body | done |].
  intros HN. apply nil_length_inv in HN.
  assert (body = []) as ->; [|simpl; unfold N; rewrite HN; done].
  rewrite HN in Hq. simpl in Hq. done.
Qed.

(** Three files, one of them failing; and an empty source directory. *)
Lemma worker_without_cancellation_witness :
  (let e := Sample.make (1000, 750) Sample.three_files ["https://res.example/b.png"] 0 None in
   let q := pushed empty_world
              (process_all_images_worker e Sample.src Sample.out 2 empty_world).2 in
   exists rs,
     without_status q = Total 3 :: rs ++ [Done (successes (results rs)) 3]
     /\ Forall (fun ev => is_progress ev = true) rs
     /\ (results rs).*1 = seq 1 3
     /\ (3%nat = 0%nat -> q = [Total 0; Done 0 0]))
  /\ pushed empty_world
       (process_all_images_worker (Sample.make (1000, 750) [] [] 0 None)
          Sample.src Sample.out 2 empty_world).2
     = [Total 0; Done 0 0].
Proof.
  split.
  - intros e q.
    apply (worker_without_cancellation e Sample.src Sample.out 2 empty_world
             Sample.three_files); [reflexivity|reflexivity|intros idx; reflexivity].
  - destruct (worker_without_cancellation (Sample.make (1000, 750) [] [] 0 None)
                Sample.src Sample.out 2 empty_world [])
      as (rs & _ & _ & _ & Hempty);
      [reflexivity|reflexivity|intros idx; reflexivity|].
    apply Hempty. reflexivity.
Defined.

(** C4. For every job with N candidate files, if the stop flag is seen set
    at the check before file k (1 <= k <= N), the worker pushes at most k-1
    result events, exactly one [Stopped] and exactly one [Done], whose total
    is N and whose success count is that of the results pushed before the
    stop; [Stopped] is followed by that [Done] and by nothing else. *)
Theorem worker_cancelled_before e src out sc w entries k :
  mkdir_fault e out = None ->
  iterdir e src = Ret entries ->
  let N := length (image_files_of src entries) in
  (1 <= k <= N)%nat ->
  stop_is_set e k = true ->
  let q := pushed w (process_all_images_worker e src out sc w).2 in
  exists body s,
    q = Total N :: body ++ [Stopped stopped_reason; Done s N]
    /\ Forall body_event body
    /\ (length (results q) <= k - 1)%nat
    /\ count is_stopped q = 1%nat
    /\ count is_done q = 1%nat
    /\ s = successes (results body).
Proof.
  intros Hmk Hit N Hk Hstop q. subst q.
  rewrite (worker_pushed e src out sc w entries Hmk Hit). fold N.
  destruct (loop_queue_split e out sc N (image_files_of src entries) 1)
    as (body & Hq & Hbody & Hres & _).
  fold N in Hq, Hres.
  pose proof (attempted_before e N 1 k ltac:(lia) Hstop) as Hat.
  case_decide; [|lia].
  exists body, (successes (results body)). rewrite Hq.
  assert (Hlen : length (results body) = attempted e 1 N).
  { rewrite <- (length_fmap fst), Hres, length_seq. done. }
  repeat split.
  - rewrite <- app_assoc. simpl. rewrite !results_app. simpl.
    rewrite app_nil_r. done.
  - done.
  - simpl. rewrite !results_app, !length_app. simpl. lia.
  - simpl. rewrite !count_app. simpl.
    rewrite (count_body_0 is_stopped body); [done| |done].
    intros ev [Hev|Hev]; destruct ev; done.
  - simpl. rewrite !count_app. simpl.
    rewrite (count_body_0 is_done body); [done| |done].
    intros ev [Hev|Hev]; destruct ev; done.
Qed.

Lemma worker_cancelled_before_witness :
  let e := Sample.make (1000, 750) Sample.five_files [] 2 None in
  let q := pushed empty_world
             (process_all_images_worker e Sample.src Sample.out 2 empty_world).2 in
  exists body s,
    q = Total 5 :: body ++ [Stopped stopped_reason; Done s 5]
    /\ Forall body_event body
    /\ (length (results q) <= 2 - 1)%nat
    /\ count is_stopped q = 1%nat
    /\ count is_done q = 1%nat
    /\ s = successes (results body).
Proof.
  intros e q.
  apply (worker_cancelled_before e Sample.src Sample.out 2 empty_world
           Sample.five_files 2); [reflexivity|reflexivity|simpl; lia|reflexivity].
Defined.

(** X23. In every run of the worker that gets past the creation of the
    output directory and the listing of the source directory, cancelled or
    not: the queue starts with the single [Total], so it precedes every
    result; the result indices are 1, 2, ... up to the number of files
    attempted, without gaps; exactly one [Done] is pushed and it is the last
    event; and if [Stopped] occurs, there are at most N results and only
    [Done] follows it. *)
Theorem worker_channel_invariants e src out sc w entries :
  mkdir_fault e out = None ->
  iterdir e src = Ret entries ->
  let N := length (image_files_of src entries) in
  let q := pushed w (process_all_images_worker e src out sc w).2 in
  exists rest s,
    q = Total N :: rest ++ [Done s N]
    /\ count is_total rest = 0%nat
    /\ count is_done rest = 0%nat
    /\ (results q).*1 = seq 1 (attempted e 1 N)
    /\ (attempted e 1 N <= N)%nat
    /\ (forall reason, Stopped reason ∈ q ->
          (length (results q) <= N)%nat
          /\ exists body, rest = body ++ [Stopped reason] /\ count is_stopped body = 0%nat).
Proof.
  intros Hmk Hit N q. subst q.
  rewrite (worker_pushed e src out sc w entries Hmk Hit). fold N.
  destruct (loop_queue_split e out sc N (image_files_of src entries) 1)
    as (body & Hq & Hbody & Hres & _).
  fold N in Hq, Hres.
  pose proof (attempted_le e N 1) as Hle.
  assert (Hlen : length (results body) = attempted e 1 N).
  { rewrite <- (length_fmap fst), Hres, length_seq. done. }
  assert (Hns : count is_stopped body = 0%nat).
  { apply count_body_0; [|done]. intros ev [Hev|Hev]; destruct ev; done. }
  assert (Hnt : count is_total body = 0%nat).
  { apply count_body_0; [|done]. intros ev [Hev|Hev]; destruct ev; done. }
  assert (Hnd : count is_done body = 0%nat).
  { apply count_body_0; [|done]. intros ev [Hev|Hev]; destruct ev; done. }
  eexists _, _. split; [reflexivity|]. rewrite Hq.
  assert (Hr : results (Total N :: (body ++ (if decide (attempted e 1 N < N)%nat
                then [Stopped stopped_reason] else [])) ++
                [Done (successes (results (body ++ (if decide (attempted e 1 N < N)%nat
                then [Stopped stopped_reason] else [])))) N]) = results body).
  { simpl. rewrite !results_app. case_decide; simpl; rewrite ?app_nil_r; done. }
  rewrite Hr. repeat split.
  - rewrite count_app, Hnt. case_decide; done.
  - rewrite count_app, Hnd. case_decide; done.
  - done.
  - done.
  - lia.
  - apply elem_of_cons in H as [H|H]; [discriminate|].
    rewrite !elem_of_app in H. destruct H as [[H|H]|H].
    + exfalso. clear -H Hns. induction body as [|ev body IH]; [by apply elem_of_nil in H|].
      simpl in Hns. apply elem_of_cons in H as [<-|H]; [simpl in Hns; lia|].
      apply IH; [|done]. destruct (is_stopped ev); lia.
    + case_decide; [|by apply elem_of_nil in H].
      apply list_elem_of_singleton in H as ->. eauto.
    + apply list_elem_of_singleton in H. discriminate.
Qed.

Lemma worker_channel_invariants_witness :
  let e := Sample.make (1000, 750) Sample.five_files [] 2 None in
  let q := pushed empty_world
             (process_all_images_worker e Sample.src Sample.out 2 empty_world).2 in
  exists rest s,
    q = Total 5 :: rest ++ [Done s 5]
    /\ count is_total rest = 0%nat
    /\ count is_done rest = 0%nat
    /\ (results q).*1 = seq 1 (attempted e 1 5)
    /\ (attempted e 1 5 <= 5)%nat
    /\ (forall reason, Stopped reason ∈ q ->
          (length (results q) <= 5)%nat
          /\ exists body, rest = body ++ [Stopped reason] /\ count is_stopped body = 0%nat).
Proof.
  intros e q.
  apply (worker_channel_invariants e Sample.src Sample.out 2 empty_world
           Sample.five_files); reflexivity.
Defined.

(** Every result event closes a stretch of the trace that begins with the
    status event of the same position and file name; after a check that
    sees the stop flag set no status event is pushed. *)
Lemma worker_result_has_status e src out sc w :
  let tr := new_actions w (process_all_images_worker e src out sc w).2 in
  count is_status (queue_of tr) = count is_progress (queue_of tr)
  /\ (forall idx ok d,
        Put (Progress idx ok d) ∈ tr ->
        exists pre p total mid post,
          tr = pre ++ Put (Status (status_text idx total (name p))) :: ImageOpen p ::
               mid ++ Put (Progress idx ok d) :: post
          /\ queue_of mid = []
          /\ (forall entries, iterdir e src = Ret entries ->
                total = length (image_files_of src entries)
                /\ (1 <= idx)%nat
                /\ image_files_of src entries !! (idx - 1)%nat = Some p))
  /\ (forall pre idx post,
        tr = pre ++ IsSet idx :: post ->
        stop_is_set e idx = true ->
        count is_status (queue_of post) = 0%nat).
Proof.
  intros tr. subst tr.
  destruct (worker_run_cases e src out sc w)
    as [(msg & _ & _ & ->)|[(msg & _ & _ & _ & ->)|(entries & _ & Hit & _ & Htr)]].
  - split; [done|]. split.
    + intros idx ok d Hin. apply list_elem_of_singleton in Hin. discriminate.
    + intros [|a [|b pre]] idx post Heq; simpl in Heq; discriminate.
  - split; [done|]. split.
    + intros idx ok d Hin. apply elem_of_cons in Hin as [?|Hin]; [discriminate|].
      apply list_elem_of_singleton in Hin. discriminate.
    + intros [|a [|b [|c pre]]] idx post Heq; simpl in Heq; discriminate.
  - simpl in Htr. rewrite Htr. clear Htr.
    set (fs := image_files_of src entries).
    set (lt := loop_trace e out sc (length fs) fs 1).
    split; [|split].
    + simpl. rewrite queue_of_app. simpl. rewrite !count_app. simpl.
      destruct (loop_queue_split e out sc (length fs) fs 1)
        as (body & Hq & Hbody & Hres & Hst).
      fold lt in Hq. rewrite Hq, !count_app.
      assert (count is_progress body = attempted e 1 (length fs)) as ->.
      { rewrite <- length_results, <- (length_fmap fst), Hres, length_seq. done. }
      rewrite Hst. case_decide; simpl; lia.
    + intros idx ok d Hin.
      apply elem_of_cons in Hin as [?|Hin]; [discriminate|].
      apply elem_of_cons in Hin as [?|Hin]; [discriminate|].
      apply elem_of_cons in Hin as [?|Hin]; [discriminate|].
      apply elem_of_app in Hin as [Hin|Hin];
        [|apply list_elem_of_singleton in Hin; discriminate].
      destruct (loop_result_has_status e out sc (length fs) fs 1 idx ok d Hin)
        as (pre & p & mid & post & Hlt & Hq & Hle & Hp).
      exists (Mkdir out :: Iterdir src :: Put (Total (length fs)) :: pre), p,
        (length fs), mid, (post ++ [Put (Done (successes (results (queue_of lt))) (length fs))]).
      split; [|split; [done|]].
      * fold lt in Hlt. rewrite Hlt. simpl. rewrite <- app_assoc. simpl.
        do 5 f_equal. rewrite <- app_assoc. done.
      * intros entries0 Hit0. assert (entries0 = entries) as -> by congruence.
        repeat split; done.
    + intros pre idx post Heq Hstop.
      destruct pre as [|a [|b [|c pre]]]; simpl in Heq; try discriminate.
      injection Heq as _ _ _ Heq.
      rewrite (loop_no_status_after_stop e out sc (length fs) fs 1 _ pre idx post Heq Hstop);
        done.
Qed.

(** C9. In every run of the worker, as many status events are pushed as
    result events. A file is attempted when [upscale_image] is called for
    it, and the first thing the call does is open the image: every opening
    of an image [p] in the trace is that of the candidate at the position
    it has among the openings, comes at once after the push of the status
    that carries that position (from 1), the number of candidates and the
    name of [p], and is followed by the rest of the call, in which nothing
    is pushed and no other image opened, and then by the result of that
    position. Every result event closes such a stretch; and after a check
    that sees the stop flag set no status event is pushed. *)
Theorem status_precedes_each_result e src out sc w :
  let tr := new_actions w (process_all_images_worker e src out sc w).2 in
  count is_status (queue_of tr) = count is_progress (queue_of tr)
  /\ (forall pre p post,
        tr = pre ++ ImageOpen p :: post ->
        exists entries mid ok d before after,
          iterdir e src = Ret entries
          /\ image_files_of src entries !! length (opens pre) = Some p
          /\ pre = before ++ [Put (Status (status_text (S (length (opens pre)))
                                             (length (image_files_of src entries))
                                             (name p)))]
          /\ post = mid ++ Put (Progress (S (length (opens pre))) ok d) :: after
          /\ queue_of mid = [] /\ opens mid = []
          /\ ImageOpen p :: mid
             = upscale_actions e p (joinpath out ("u" +:+ name p)) sc 60)
  /\ (forall idx ok d,
        Put (Progress idx ok d) ∈ tr ->
        exists pre p total mid post,
          tr = pre ++ Put (Status (status_text idx total (name p))) :: ImageOpen p ::
               mid ++ Put (Progress idx ok d) :: post
          /\ queue_of mid = []
          /\ (forall entries, iterdir e src = Ret entries ->
                total = length (image_files_of src entries)
                /\ (1 <= idx)%nat
                /\ image_files_of src entries !! (idx - 1)%nat = Some p))
  /\ (forall pre idx post,
        tr = pre ++ IsSet idx :: post ->
        stop_is_set e idx = true ->
        count is_status (queue_of post) = 0%nat).
Proof.
  intros tr.
  destruct (worker_result_has_status e src out sc w) as (Hcount & Hres & Hstop).
  split; [exact Hcount|]. split; [|split; [exact Hres|exact Hstop]].
  clear Hcount Hres Hstop.
  subst tr.
  destruct (worker_run_cases e src out sc w)
    as [(msg & _ & _ & ->)|[(msg & _ & _ & _ & ->)|(entries & _ & Hit & _ & Htr)]].
  - intros [|a [|b pre]] p post Heq; simpl in Heq; discriminate.
  - intros [|a [|b [|c pre]]] p post Heq; simpl in Heq; discriminate.
  - simpl in Htr. rewrite Htr. clear Htr.
    set (fs := image_files_of src entries).
    intros pre p post Heq.
    assert (Hopens : take (attempted e 1 (length fs)) fs = opens pre ++ p :: opens post).
    { apply (f_equal opens) in Heq. simpl in Heq.
      rewrite !opens_app, loop_trace_opens in Heq. simpl in Heq.
      by rewrite app_nil_r in Heq. }
    assert (Hp : take (attempted e 1 (length fs)) fs !! length (opens pre) = Some p).
    { rewrite Hopens. by apply list_lookup_middle. }
    apply lookup_take_Some in Hp as [Hp Hlt].
    destruct (loop_file_has_status e out sc (length fs) fs 1 _ p Hp Hlt)
      as (pre2 & mid & ok & d & post2 & Hlt2 & Hq & Hmid & Hlen & Hact).
    set (dn := Put (Done _ _)) in Heq.
    destruct (cut_at_open pre
                (Mkdir out :: Iterdir src :: Put (Total (length fs)) :: pre2
                 ++ [Put (Status (status_text (1 + length (opens pre)) (length fs) (name p)))])
                p p post
                (mid ++ Put (Progress (1 + length (opens pre)) ok d) :: post2 ++ [dn]))
      as (Hpre & _ & Hpost).
    { rewrite <- Heq, Hlt2. simpl. rewrite <- !app_assoc. simpl. do 3 f_equal.
      rewrite <- !app_assoc. reflexivity. }
    { simpl. rewrite opens_app. simpl. rewrite app_nil_r. done. }
    exists entries, mid, ok, d,
      (Mkdir out :: Iterdir src :: Put (Total (length fs)) :: pre2), (post2 ++ [dn]).
    split; [done|]. split; [done|]. split; [exact Hpre|]. split; [exact Hpost|]. done.
Qed.

(** C5. Whatever the file, the scale factor and the outcome of every step
    (exceptions included), [upscale_image] returns a pair and raises nothing:
    [(True, "OK")] exactly when every step succeeds, [(False, message)]
    otherwise; and the worker's loop, which calls it for each file, returns
    for every list of files, with one result for every file before the first
    stop check that reads set, whatever went wrong in the files before. *)
Theorem upscale_image_never_raises e ip op sc t w :
  exists ok msg w',
    upscale_image e ip op sc t w = (Ret (ok, msg), w')
    /\ (ok = true <-> all_steps_succeed e ip op sc t)
    /\ (ok = true -> msg = "OK")
    /\ (forall out total fs idx s w0,
          exists s' w0',
            worker_loop e out sc total fs idx s w0 = (Ret s', w0')
            /\ length (results (pushed w0 w0')) = attempted e idx (length fs)).
Proof.
  destruct (upscale_image_outcome e ip op sc t w) as (ok & msg & w' & Hrun & Hok).
  exists ok, msg, w'. split; [done|]. split; [|split].
  - split; [by intros H; apply Hok|].
    intros Hall. destruct (upscale_image_success e ip op sc t w Hall) as (w2 & Hrun2).
    congruence.
  - by intros H; apply Hok.
  - intros out total fs idx s w0.
    destruct (worker_loop_run e out sc total fs idx s w0) as (f1 & d1 & ->).
    eexists _, _. split; [reflexivity|].
    unfold pushed. rewrite new_actions_app.
    destruct (loop_queue_split e out sc total fs idx) as (body & -> & _ & Hres & _).
    rewrite results_app, length_app, <- (length_fmap fst (results body)), Hres, length_seq.
    case_decide; simpl; lia.
Qed.

(** ** Candidate files *)

Lemma supported_formats_cases s :
  s ∈ supported_formats
  <-> exists x, x ∈ Spec.allowed_extensions /\ (s = x \/ s = Spec.upper x).
Proof.
  unfold supported_formats, Spec.allowed_extensions. split.
  - rewrite !elem_of_cons.
    intros [->|[->|[->|[->|[->|[->|H]]]]]]; [..|by apply elem_of_nil in H].
    + exists ".jpg". split; [repeat constructor|by left].
    + exists ".jpeg". split; [repeat constructor|by left].
    + exists ".png". split; [repeat constructor|by left].
    + exists ".jpg". split; [repeat constructor|by right].
    + exists ".jpeg". split; [repeat constructor|by right].
    + exists ".png". split; [repeat constructor|by right].
  - intros (x & Hx & Hs). rewrite !elem_of_cons in Hx.
    destruct Hx as [->|[->|[->|Hx]]]; [..|by apply elem_of_nil in Hx];
      destruct Hs as [-> | ->]; vm_compute; repeat constructor.
Qed.

(** C2 (as amended). An entry of the source directory is enumerated as a
    candidate if and only if it is a regular file and its suffix is one of
    [.jpg], [.jpeg], [.png], written all in lower case or all in upper case. *)
Theorem candidates_have_listed_suffix src entries p :
  p ∈ image_files_of src entries
  <-> exists f,
        f ∈ entries
        /\ p = joinpath src (entry_name f)
        /\ entry_is_file f = true
        /\ exists x, x ∈ Spec.allowed_extensions
                     /\ (suffix (entry_name f) = x
                         \/ suffix (entry_name f) = Spec.upper x).
Proof.
  unfold image_files_of. rewrite list_elem_of_fmap. split.
  - intros (nm & -> & Hnm). apply list_elem_of_fmap in Hnm as (f & -> & Hf).
    apply list_elem_of_In, filter_In in Hf as [Hf Hc].
    unfold is_candidate in Hc. apply andb_true_iff in Hc as [Hfile Hsuf].
    apply bool_decide_eq_true in Hsuf.
    exists f. repeat split; [by apply list_elem_of_In|done|].
    by apply supported_formats_cases.
  - intros (f & Hf & -> & Hfile & Hsuf).
    exists (entry_name f). split; [done|].
    apply list_elem_of_fmap. exists f. split; [done|].
    apply list_elem_of_In, filter_In. split; [by apply list_elem_of_In|].
    unfold is_candidate. apply andb_true_iff. split; [done|].
    apply bool_decide_eq_true. by apply supported_formats_cases.
Qed.

(** C2 (as stated) fails: the file [d.Jpg] has an extension in the allow-set
    when compared case-insensitively, and it is not enumerated. *)
Lemma mixed_case_suffix_is_skipped : ~ Spec.candidate_iff_case_insensitive.
Proof.
  intros Hclaim.
  destruct (Hclaim Sample.src [Sample.file "d.Jpg"] (Sample.file "d.Jpg")) as [_ Hin].
  { repeat constructor. }
  specialize (Hin eq_refl). vm_compute in Hin. by apply elem_of_nil in Hin.
Qed.

(** ** The start form *)

Lemma eqb_empty s : s = "" -> String.eqb s "" = true.
Proof. intros ->. reflexivity. Qed.

(** C7 (as amended). A start action is rejected before any job begins (one
    error dialog, no configuration saved, no thread started, every widget and
    the queue unchanged) whenever the cloud name or the API key is empty once
    trimmed, the source is empty or not an existing directory, the
    destination is empty, or the scale factor does not parse as a float or
    parses as a value [<= 0]. *)
Theorem start_rejects_input_errors ge g :
  GUI.input_error ge g -> GUI.rejected ge g.
Proof.
  unfold GUI.input_error, GUI.rejected, GUI.start_processing, GUI.parse_scale.
  intros Herr.
  destruct (String.eqb (GUI.strip (GUI.entry_name g)) "") eqn:Hname; simpl; [eauto|].
  destruct (String.eqb (GUI.strip (GUI.entry_key g)) "") eqn:Hkey; simpl; [eauto|].
  destruct (String.eqb (GUI.strip (GUI.entry_source g)) "") eqn:Hsrc; simpl; [eauto|].
  destruct (GUI.isdir ge (GUI.strip (GUI.entry_source g))) eqn:Hdir; simpl; [|eauto].
  destruct (String.eqb (GUI.strip (GUI.entry_output g)) "") eqn:Hout; simpl; [eauto|].
  destruct Herr as [H|[H|[H|[H|[H|[(msg & H)|(x & H & Hx)]]]]]].
  - apply eqb_empty in H. congruence.
  - apply eqb_empty in H. congruence.
  - apply eqb_empty in H. congruence.
  - congruence.
  - apply eqb_empty in H. congruence.
  - rewrite H. eauto.
  - rewrite H, Hx. eauto.
Qed.

(** An empty cloud name is rejected. *)
Lemma start_rejects_input_errors_witness :
  GUI.rejected Sample.desktop (Sample.form "  " "key" "secret").
Proof.
  apply (start_rejects_input_errors Sample.desktop (Sample.form "  " "key" "secret")).
  left. reflexivity.
Defined.

(** C7 (as stated) fails: with the API secret left empty and every other
    field valid, the configuration is saved and the worker thread is
    started. *)
Lemma empty_secret_is_accepted : ~ Spec.input_errors_rejected.
Proof.
  intros Hclaim.
  destruct (Hclaim Sample.desktop (Sample.form "demo" "key" "")) as (message & Hrej).
  { right; right; left. reflexivity. }
  vm_compute in Hrej. discriminate.
Qed.

(** With the API secret empty the job starts: what the method does. *)
Example empty_secret_starts_job :
  (GUI.start_processing Sample.desktop (Sample.form "demo" "key" "")).2
  = [GUI.SaveConfig (GUI.Config "demo" "key" "");
     GUI.ConfigureCloudinary (GUI.Config "demo" "key" "");
     GUI.ThreadStart (GUI.Job "photos" "upscaled" 2)].
Proof. reflexivity. Qed.

(** ** The scenarios of the specification *)

(** Three files, the second answered with HTTP 500. *)
Example three_files_scenario :
  pushed empty_world
    (process_all_images_worker
       (Sample.make (1000, 750) Sample.three_files ["https://res.example/b.png"] 0 None)
       Sample.src Sample.out 2 empty_world).2
  = [Total 3;
     Status "[1/3] a.jpg"; Progress 1 true "a.jpg";
     Status "[2/3] b.png"; Progress 2 false "b.png -> HTTP 500";
     Status "[3/3] c.jpg"; Progress 3 true "c.jpg";
     Done 2 3].
Proof. vm_compute. reflexivity. Qed.

(** Five files, the flag set once the first is done. *)
Example cancelled_scenario :
  pushed empty_world
    (process_all_images_worker (Sample.make (1000, 750) Sample.five_files [] 2 None)
       Sample.src Sample.out 2 empty_world).2
  = [Total 5; Status "[1/5] 1.jpg"; Progress 1 true "1.jpg";
     Stopped "Processing stopped by user"; Done 1 5].
Proof. vm_compute. reflexivity. Qed.

(** An output directory that cannot be created: the worker raises before it
    pushes anything. *)
Example unusable_output_directory :
  let e := Env (fun _ => Ret (1000, 750)) (fun _ _ => Ret ∅)
             (fun _ _ => Ret Sample.ok_response)
             (fun _ => Some "File exists") (fun _ => None) (fun _ => None)
             (fun _ => Ret Sample.three_files) (fun _ => false) in
  let r := process_all_images_worker e Sample.src Sample.out 2 empty_world in
  r.1 = Raise "File exists" /\ pushed empty_world r.2 = [].
Proof. vm_compute. split; reflexivity. Qed.

(** ** Polling the queue *)

Lemma handle_set_queue item r win :
  UI.handle item (UI.with_widgets (UI.set_queue r) win)
  = (UI.with_widgets (UI.set_queue r) (UI.handle item win).1, (UI.handle item win).2).
Proof. destruct item; try destruct ok; reflexivity. Qed.

Lemma handle_all_set_queue q : forall r win,
  UI.handle_all q (UI.with_widgets (UI.set_queue r) win)
  = (UI.with_widgets (UI.set_queue r) (UI.handle_all q win).1, (UI.handle_all q win).2).
Proof.
  induction q as [|item q IH]; intros r win; [reflexivity|].
  simpl. unfold UI.and_then. rewrite handle_set_queue.
  destruct (UI.handle item win) as [w1 e1]. simpl. rewrite IH.
  destruct (UI.handle_all q w1) as [w2 e2]. reflexivity.
Qed.

Lemma set_queue_twice r1 r2 win :
  UI.with_widgets (UI.set_queue r1) (UI.with_widgets (UI.set_queue r2) win)
  = UI.with_widgets (UI.set_queue r1) win.
Proof. reflexivity. Qed.

Lemma set_queue_same win :
  UI.with_widgets (UI.set_queue (GUI.queue (UI.widgets win))) win = win.
Proof. destruct win as [[] ? ?]. reflexivity. Qed.

Lemma drain_handle_all q : forall win,
  UI.drain q win
  = (UI.with_widgets (UI.set_queue (match q with [] => GUI.queue (UI.widgets win) | _ => [] end))
       (UI.handle_all q win).1,
     (UI.handle_all q win).2).
Proof.
  induction q as [|item q IH]; intros win.
  - simpl. unfold UI.update. simpl. rewrite set_queue_same. reflexivity.
  - simpl. unfold UI.and_then, UI.update. rewrite handle_set_queue.
    destruct (UI.handle item win) as [w1 e1]. simpl. rewrite IH.
    rewrite handle_all_set_queue. destruct (UI.handle_all q w1) as [w2 e2]. simpl.
    rewrite set_queue_twice. destruct q; reflexivity.
Qed.

Lemma poll_queue_handle_all win :
  UI.poll_queue win
  = (UI.with_widgets (UI.set_queue []) (UI.handle_all (GUI.queue (UI.widgets win)) win).1,
     (UI.handle_all (GUI.queue (UI.widgets win)) win).2 ++ [UI.After 200]).
Proof.
  unfold UI.poll_queue, UI.and_then, UI.perform. rewrite drain_handle_all.
  destruct (UI.handle_all _ win) as [w1 e1] eqn:Hall. simpl.
  destruct (GUI.queue (UI.widgets win)) eqn:Hq; reflexivity.
Qed.

Lemma handle_all_app q1 q2 win :
  UI.handle_all (q1 ++ q2) win
  = UI.and_then (UI.handle_all q1) (UI.handle_all q2) win.
Proof.
  revert win. induction q1 as [|item q1 IH]; intros win; simpl.
  - unfold UI.and_then, UI.update. destruct (UI.handle_all q2 win). reflexivity.
  - unfold UI.and_then in *. destruct (UI.handle item win) as [w1 e1].
    rewrite IH. destruct (UI.handle_all q1 w1) as [w2 e2].
    destruct (UI.handle_all q2 w2) as [w3 e3]. rewrite app_assoc. reflexivity.
Qed.

Lemma string_app_assoc (s1 s2 s3 : string) : (s1 +:+ s2) +:+ s3 = s1 +:+ (s2 +:+ s3).
Proof.
  induction s1 as [|c s1 IH]; [done|].
  change (String c ((s1 +:+ s2) +:+ s3) = String c (s1 +:+ (s2 +:+ s3))).
  by rewrite IH.
Qed.

Lemma string_app_nil_r (s : string) : s +:+ "" = s.
Proof.
  induction s as [|c s IH]; [done|].
  change (String c (s +:+ "") = String c s). by rewrite IH.
Qed.

Lemma log_lines_app e1 e2 : UI.log_lines (e1 ++ e2) = UI.log_lines e1 ++ UI.log_lines e2.
Proof.
  induction e1 as [|a e1 IH]; simpl; [done|]. destruct a; simpl; rewrite ?IH; done.
Qed.

Lemma info_dialogs_app e1 e2 :
  UI.info_dialogs (e1 ++ e2) = UI.info_dialogs e1 ++ UI.info_dialogs e2.
Proof.
  induction e1 as [|a e1 IH]; simpl; [done|]. destruct a; simpl; rewrite ?IH; done.
Qed.

(** One item: the line it logs, the dialog it shows, what it leaves alone. *)
Lemma handle_effects item win :
  UI.log_lines (UI.handle item win).2 = option_list (UI.line_of item)
  /\ UI.info_dialogs (UI.handle item win).2 = option_list (UI.dialog_of item)
  /\ UI.log_text (UI.handle item win).1
     = UI.log_text win +:+ UI.lines_text (option_list (UI.line_of item)).
Proof.
  destruct item; simpl; rewrite ?string_app_nil_r, ?string_app_assoc; done.
Qed.

Lemma handle_all_effects q : forall win,
  UI.log_lines (UI.handle_all q win).2 = omap UI.line_of q
  /\ UI.info_dialogs (UI.handle_all q win).2 = omap UI.dialog_of q
  /\ UI.log_text (UI.handle_all q win).1
     = UI.log_text win +:+ UI.lines_text (omap UI.line_of q).
Proof.
  induction q as [|item q IH]; intros win; simpl.
  - by rewrite string_app_nil_r.
  - unfold UI.and_then.
    destruct (handle_effects item win) as (Hl & Hd & Ht).
    destruct (UI.handle item win) as [w1 e1]. simpl in *.
    destruct (IH w1) as (Hl' & Hd' & Ht').
    destruct (UI.handle_all q w1) as [w2 e2]. simpl in *.
    rewrite log_lines_app, info_dialogs_app, Hl, Hd, Hl', Hd', Ht', Ht.
    rewrite string_app_assoc.
    destruct (UI.line_of item); simpl; repeat split; try done.
    + destruct (UI.dialog_of item); done.
    + by rewrite !string_app_assoc.
    + destruct (UI.dialog_of item); done.
Qed.

Lemma poll_deliver q win :
  UI.poll_queue (UI.deliver q win)
  = (UI.with_widgets (UI.set_queue [])
       (UI.handle_all (GUI.queue (UI.widgets win) ++ q) win).1,
     (UI.handle_all (GUI.queue (UI.widgets win) ++ q) win).2 ++ [UI.After 200]).
Proof.
  rewrite poll_queue_handle_all. unfold UI.deliver.
  change (GUI.queue (UI.widgets (UI.with_widgets _ win)))
    with (GUI.queue (UI.widgets win) ++ q).
  change (UI.with_widgets (fun g => UI.set_queue (GUI.queue g ++ q) g) win)
    with (UI.with_widgets (UI.set_queue (GUI.queue (UI.widgets win) ++ q)) win).
  rewrite handle_all_set_queue. simpl. reflexivity.
Qed.

(** X1. One poll takes every item off the queue and handles them in the order
    they were put: each item but a status gives exactly one log line, each
    [done] one dialog, the lines are appended to the log area, and the poll
    ends by scheduling the next one. *)
Theorem poll_queue_handles_every_item win :
  let q := GUI.queue (UI.widgets win) in
  let r := UI.poll_queue win in
  GUI.queue (UI.widgets r.1) = []
  /\ UI.log_lines r.2 = omap UI.line_of q
  /\ UI.info_dialogs r.2 = omap UI.dialog_of q
  /\ UI.log_text r.1 = UI.log_text win +:+ UI.lines_text (omap UI.line_of q)
  /\ last r.2 = Some (UI.After 200).
Proof.
  intros q r. subst r. rewrite poll_queue_handle_all. fold q.
  destruct (handle_all_effects q win) as (Hl & Hd & Ht). simpl.
  rewrite log_lines_app, info_dialogs_app, Hl, Hd, Ht, last_snoc. simpl.
  rewrite !app_nil_r. done.
Qed.

(** X2. How the items are spread over polls does not matter: polling after
    [q1] has arrived and again after [q2] has arrived leaves the window as one
    poll after both does, with the same effects in the same order. *)
Theorem polling_in_batches win q1 q2 :
  let once := UI.poll_queue (UI.deliver (q1 ++ q2) win) in
  let first := UI.poll_queue (UI.deliver q1 win) in
  let second := UI.poll_queue (UI.deliver q2 first.1) in
  second.1 = once.1
  /\ exists effs1 effs2,
       first.2 = effs1 ++ [UI.After 200]
       /\ second.2 = effs2 ++ [UI.After 200]
       /\ once.2 = effs1 ++ effs2 ++ [UI.After 200].
Proof.
  intros once first second. subst once first second.
  rewrite !poll_deliver. simpl.
  set (q0 := GUI.queue (UI.widgets win)).
  rewrite handle_all_set_queue. simpl. rewrite set_queue_twice.
  rewrite (app_assoc q0 q1 q2), (handle_all_app (q0 ++ q1) q2).
  unfold UI.and_then.
  destruct (UI.handle_all (q0 ++ q1) win) as [w1 e1]. simpl.
  destruct (UI.handle_all q2 w1) as [w2 e2]. simpl.
  split; [done|]. exists e1, e2. rewrite <- app_assoc. done.
Qed.

(** ** Polling what a worker has put *)

(** The result events of a queue carry the indices [results] lists. *)
Lemma progress_index_in_results q idx ok d :
  Progress idx ok d ∈ q -> idx ∈ (results q).*1.
Proof.
  induction q as [|ev q IH]; intros Hin; [by apply elem_of_nil in Hin|].
  apply elem_of_cons in Hin as [<-|Hin].
  - simpl. apply elem_of_cons. by left.
  - destruct ev; simpl; auto. apply elem_of_cons. right. auto.
Qed.

(** The events of the loop: no [total], no [done], and result indices
    between the first position and the last. *)
Lemma loop_queue_facts e out sc total fs idx :
  let lq := queue_of (loop_trace e out sc total fs idx) in
  count is_total lq = 0%nat
  /\ count is_done lq = 0%nat
  /\ (forall i ok d, Progress i ok d ∈ lq -> (idx <= i < idx + length fs)%nat).
Proof.
  intros lq. subst lq.
  destruct (loop_queue_split e out sc total fs idx) as (body & -> & Hbody & Hres & _).
  pose proof (attempted_le e (length fs) idx) as Hle.
  rewrite !count_app.
  rewrite (count_body_0 is_total body), (count_body_0 is_done body); try done;
    try (intros ev [Hev|Hev]; destruct ev; done).
  split; [case_decide; done|]. split; [case_decide; done|].
  intros i ok d Hin. apply elem_of_app in Hin as [Hin|Hin].
  - apply progress_index_in_results in Hin. rewrite Hres in Hin.
    apply elem_of_seq in Hin. lia.
  - case_decide; [|by apply elem_of_nil in Hin].
    apply list_elem_of_singleton in Hin. discriminate.
Qed.

Lemma handle_all_keeps_maximum q : forall win,
  count is_total q = 0%nat ->
  UI.progress_maximum (UI.handle_all q win).1 = UI.progress_maximum win.
Proof.
  induction q as [|item q IH]; intros win Hq; [done|].
  simpl in *. unfold UI.and_then.
  destruct (UI.handle item win) as [w1 e1] eqn:Hh.
  specialize (IH w1). destruct (UI.handle_all q w1) as [w2 e2]. simpl in *.
  rewrite IH by (destruct (is_total item); lia).
  destruct item; try discriminate; try destruct ok; injection Hh as <- _; done.
Qed.

Lemma handle_all_keeps_buttons q : forall win,
  count is_done q = 0%nat ->
  let g := UI.widgets (UI.handle_all q win).1 in
  GUI.btn_start_enabled g = GUI.btn_start_enabled (UI.widgets win)
  /\ GUI.btn_stop_enabled g = GUI.btn_stop_enabled (UI.widgets win)
  /\ GUI.stop_flag g = GUI.stop_flag (UI.widgets win).
Proof.
  induction q as [|item q IH]; intros win Hq; [done|].
  simpl in *. unfold UI.and_then.
  destruct (UI.handle item win) as [w1 e1] eqn:Hh.
  specialize (IH w1). destruct (UI.handle_all q w1) as [w2 e2]. simpl in *.
  destruct IH as (-> & -> & ->); [destruct (is_done item); lia|].
  destruct item; try discriminate; try destruct ok; injection Hh as <- _; done.
Qed.

Lemma dialog_of_no_done q : count is_done q = 0%nat -> omap UI.dialog_of q = [].
Proof.
  induction q as [|item q IH]; simpl; [done|].
  destruct item; simpl; try discriminate; intros; by apply IH.
Qed.

(** X3. Once a worker has run to its end and everything it put has been
    polled, the window is idle again: Start enabled, Stop disabled, the
    status back to its idle text, the bar at 0 of max(1, N), the queue empty,
    and exactly one dialog shown, with the number of successes and N. *)
Theorem poll_after_run_resets_window e src out sc w entries win :
  mkdir_fault e out = None ->
  iterdir e src = Ret entries ->
  GUI.queue (UI.widgets win) = [] ->
  let N := length (image_files_of src entries) in
  let q := pushed w (process_all_images_worker e src out sc w).2 in
  let r := UI.poll_queue (UI.deliver q win) in
  GUI.btn_start_enabled (UI.widgets r.1) = true
  /\ GUI.btn_stop_enabled (UI.widgets r.1) = false
  /\ GUI.status_var (UI.widgets r.1) = "Готов"
  /\ GUI.progress_value (UI.widgets r.1) = 0
  /\ UI.progress_maximum r.1 = Z.max 1 (Z.of_nat N)
  /\ GUI.queue (UI.widgets r.1) = []
  /\ UI.info_dialogs r.2 = [UI.done_message (successes (results q)) N].
Proof.
  intros Hmk Hit Hq0 N q r. subst r q.
  rewrite poll_deliver, Hq0. cbn [fst snd app].
  rewrite (worker_pushed e src out sc w entries Hmk Hit). fold N.
  set (lq := queue_of (loop_trace e out sc N (image_files_of src entries) 1)).
  destruct (loop_queue_facts e out sc N (image_files_of src entries) 1)
    as (Hnt & Hnd & _). fold lq in Hnt, Hnd.
  assert (Hres : results (Total N :: lq ++ [Done (successes (results lq)) N]) = results lq).
  { simpl. rewrite results_app. simpl. by rewrite app_nil_r. }
  rewrite Hres. set (s := successes (results lq)).
  destruct (handle_all_effects (Total N :: lq ++ [Done s N]) win) as (_ & Hd & _).
  rewrite info_dialogs_app, Hd. clear Hd.
  assert (Hdlg : omap UI.dialog_of (Total N :: lq ++ [Done s N]) = [UI.done_message s N]).
  { simpl. rewrite omap_app, (dialog_of_no_done lq Hnd). done. }
  rewrite Hdlg. clear Hdlg.
  change (Total N :: lq ++ [Done s N]) with ((Total N :: lq) ++ [Done s N]).
  rewrite handle_all_app. unfold UI.and_then.
  assert (Hmax : UI.progress_maximum (UI.handle_all (Total N :: lq) win).1
                 = Z.max 1 (Z.of_nat N)).
  { simpl. unfold UI.and_then. simpl.
    match goal with
    | |- context [UI.handle_all lq ?w1] =>
        pose proof (handle_all_keeps_maximum lq w1 Hnt) as Hk;
        destruct (UI.handle_all lq w1)
    end.
    simpl in *. done. }
  destruct (UI.handle_all (Total N :: lq) win) as [w2 e2]. simpl in *.
  repeat split; done.
Qed.

(** Three files, the second of which fails: one dialog, with 2 of 3. *)
Lemma poll_after_run_resets_window_witness :
  let q := pushed empty_world
             (process_all_images_worker Scenario.three Sample.src Sample.out 2 empty_world).2 in
  let r := UI.poll_queue (UI.deliver q Scenario.window) in
  GUI.btn_start_enabled (UI.widgets r.1) = true
  /\ GUI.btn_stop_enabled (UI.widgets r.1) = false
  /\ GUI.status_var (UI.widgets r.1) = "Готов"
  /\ GUI.progress_value (UI.widgets r.1) = 0
  /\ UI.progress_maximum r.1 = Z.max 1 (Z.of_nat 3)
  /\ GUI.queue (UI.widgets r.1) = []
  /\ UI.info_dialogs r.2 = [UI.done_message (successes (results q)) 3].
Proof.
  apply (poll_after_run_resets_window Scenario.three Sample.src Sample.out 2 empty_world
           Sample.three_files Scenario.window); reflexivity.
Defined.

Lemma handle_all_range N q : forall win,
  (forall i ok d, Progress i ok d ∈ q -> (i <= N)%nat) ->
  count is_total q = 0%nat ->
  UI.progress_maximum win = Z.max 1 (Z.of_nat N) ->
  0 <= GUI.progress_value (UI.widgets win) <= UI.progress_maximum win ->
  let win' := (UI.handle_all q win).1 in
  UI.progress_maximum win' = Z.max 1 (Z.of_nat N)
  /\ 0 <= GUI.progress_value (UI.widgets win') <= UI.progress_maximum win'.
Proof.
  induction q as [|item q IH]; intros win Hidx Hnt Hmax Hval; [done|].
  simpl in *. unfold UI.and_then.
  destruct (UI.handle item win) as [w1 e1] eqn:Hh.
  specialize (IH w1). destruct (UI.handle_all q w1) as [w2 e2]. simpl in *.
  apply IH.
  - intros i ok d Hin. apply (Hidx i ok d). apply elem_of_cons. by right.
  - destruct (is_total item); lia.
  - destruct item; try discriminate; try destruct ok; injection Hh as <- _; done.
  - destruct item; try discriminate; try destruct ok; injection Hh as <- _; simpl;
      try done; try lia.
    + specialize (Hidx idx true detail ltac:(apply elem_of_cons; by left)). lia.
    + specialize (Hidx idx false detail ltac:(apply elem_of_cons; by left)). lia.
Qed.

(** X4. While the events of a run are polled, in whatever batches, the
    progress bar stays in range: from the first poll that sees the run's
    events on, the maximum is max(1, N) and the value lies between 0 and the
    maximum. *)
Theorem progress_bar_stays_in_range e src out sc w entries win q1 q2 :
  mkdir_fault e out = None ->
  iterdir e src = Ret entries ->
  GUI.queue (UI.widgets win) = [] ->
  GUI.progress_value (UI.widgets win) = 0 ->
  pushed w (process_all_images_worker e src out sc w).2 = q1 ++ q2 ->
  q1 <> [] ->
  let N := length (image_files_of src entries) in
  let win' := (UI.poll_queue (UI.deliver q1 win)).1 in
  UI.progress_maximum win' = Z.max 1 (Z.of_nat N)
  /\ 0 <= GUI.progress_value (UI.widgets win') <= UI.progress_maximum win'.
Proof.
  intros Hmk Hit Hq0 Hv0 Hq Hne N win'. subst win'.
  rewrite poll_deliver, Hq0. cbn [fst app].
  rewrite (worker_pushed e src out sc w entries Hmk Hit) in Hq. fold N in Hq.
  set (lq := queue_of (loop_trace e out sc N (image_files_of src entries) 1)) in *.
  destruct (loop_queue_facts e out sc N (image_files_of src entries) 1)
    as (Hnt & Hnd & Hidx). fold lq in Hnt, Hnd, Hidx.
  destruct q1 as [|ev q1]; [done|]. injection Hq as <- Hq.
  assert (Hin : forall x, x ∈ q1 -> x ∈ lq ++ [Done (successes (results lq)) N]).
  { intros x Hx. rewrite Hq. apply elem_of_app. by left. }
  assert (Hnt1 : count is_total q1 = 0%nat).
  { apply (f_equal (count is_total)) in Hq. rewrite !count_app, Hnt in Hq.
    simpl in Hq. lia. }
  simpl UI.handle_all. unfold UI.and_then. simpl.
  match goal with
  | |- context [UI.handle_all q1 ?w1] =>
      pose proof (handle_all_range N q1 w1) as Hr; destruct (UI.handle_all q1 w1)
  end.
  simpl in *. apply Hr; [|done|done|lia].
  intros i ok d Hi. apply Hin, elem_of_app in Hi as [Hi|Hi].
  - apply Hidx in Hi. lia.
  - apply list_elem_of_singleton in Hi. discriminate.
Qed.

(** The first poll of a run of three files sees only its total. *)
Lemma progress_bar_stays_in_range_witness :
  let win' := (UI.poll_queue (UI.deliver [Total 3] Scenario.window)).1 in
  UI.progress_maximum win' = Z.max 1 (Z.of_nat 3)
  /\ 0 <= GUI.progress_value (UI.widgets win') <= UI.progress_maximum win'.
Proof.
  apply (progress_bar_stays_in_range Scenario.three Sample.src Sample.out 2 empty_world
           Sample.three_files Scenario.window [Total 3]
           (drop 1 (pushed empty_world
                      (process_all_images_worker Scenario.three Sample.src Sample.out 2
                         empty_world).2)));
    [reflexivity|reflexivity|reflexivity|reflexivity|vm_compute; reflexivity|discriminate].
Defined.

(** ** The buttons *)

Lemma start_processing_cases ge g :
  let g' := (GUI.start_processing ge g).1 in
  g' = g
  \/ (GUI.btn_start_enabled g' = false /\ GUI.btn_stop_enabled g' = true
      /\ GUI.stop_flag g' = false /\ GUI.queue g' = GUI.queue g).
Proof.
  unfold GUI.start_processing.
  destruct (_ || _); [by left|].
  destruct (_ || _); [by left|].
  destruct (String.eqb _ _); [by left|].
  destruct (GUI.parse_scale ge _); [|by left].
  right. done.
Qed.

(** ** Starting a job *)

Lemma start_accepted ge g :
  ~ GUI.input_error ge g ->
  exists scale_f,
    GUI.float_of_str ge (GUI.strip (GUI.entry_scale g)) = Ret scale_f
    /\ (scale_f <=? 0)%float = false
    /\ GUI.isdir ge (GUI.strip (GUI.entry_source g)) = true
    /\ GUI.strip (GUI.entry_output g) <> ""
    /\ GUI.start_processing ge g
       = (GUI.Gui (GUI.entry_name g) (GUI.entry_key g) (GUI.entry_secret g)
            (GUI.entry_source g) (GUI.entry_output g) (GUI.entry_scale g)
            (GUI.save_secret_var g) false true false 0 "Запуск..." (GUI.queue g),
          [GUI.SaveConfig
             (GUI.Config (GUI.strip (GUI.entry_name g)) (GUI.strip (GUI.entry_key g))
                (if GUI.save_secret_var g then GUI.strip (GUI.entry_secret g) else ""));
           GUI.ConfigureCloudinary
             (GUI.Config (GUI.strip (GUI.entry_name g)) (GUI.strip (GUI.entry_key g))
                (GUI.strip (GUI.entry_secret g)));
           GUI.ThreadStart
             (GUI.Job (GUI.strip (GUI.entry_source g)) (GUI.strip (GUI.entry_output g))
                scale_f)]).
Proof.
  intros Hok. unfold GUI.input_error in Hok. unfold GUI.start_processing, GUI.parse_scale.
  destruct (String.eqb (GUI.strip (GUI.entry_name g)) "") eqn:Hname;
    [apply String.eqb_eq in Hname; tauto|].
  destruct (String.eqb (GUI.strip (GUI.entry_key g)) "") eqn:Hkey;
    [apply String.eqb_eq in Hkey; tauto|].
  destruct (String.eqb (GUI.strip (GUI.entry_source g)) "") eqn:Hsrc;
    [apply String.eqb_eq in Hsrc; tauto|].
  destruct (GUI.isdir ge (GUI.strip (GUI.entry_source g))) eqn:Hdir; [|tauto].
  destruct (String.eqb (GUI.strip (GUI.entry_output g)) "") eqn:Hout;
    [apply String.eqb_eq in Hout; tauto|].
  apply String.eqb_neq in Hout.
  destruct (GUI.float_of_str ge (GUI.strip (GUI.entry_scale g))) as [x|msg] eqn:Hscale;
    [|exfalso; apply Hok; do 5 right; left; eauto].
  destruct (x <=? 0)%float eqn:Hx;
    [exfalso; apply Hok; do 6 right; eauto|].
  exists x. simpl. repeat split; done.
Qed.

Lemma start_refused ge g :
  GUI.input_error ge g ->
  exists message, (GUI.start_processing ge g).2 = [GUI.ShowError GUI.err_title message].
Proof.
  unfold GUI.input_error, GUI.start_processing, GUI.parse_scale. intros Herr.
  destruct (String.eqb (GUI.strip (GUI.entry_name g)) "") eqn:Hname; simpl; [eauto|].
  destruct (String.eqb (GUI.strip (GUI.entry_key g)) "") eqn:Hkey; simpl; [eauto|].
  destruct (String.eqb (GUI.strip (GUI.entry_source g)) "") eqn:Hsrc; simpl; [eauto|].
  destruct (GUI.isdir ge (GUI.strip (GUI.entry_source g))) eqn:Hdir; simpl; [|eauto].
  destruct (String.eqb (GUI.strip (GUI.entry_output g)) "") eqn:Hout; simpl; [eauto|].
  destruct Herr as [H|[H|[H|[H|[H|[(msg & H)|(x & H & Hx)]]]]]];
    try (apply eqb_empty in H; congruence); try congruence.
  - rewrite H. eauto.
  - rewrite H, Hx. eauto.
Qed.

(** X6. A job is started only when there is no input error, and a start with
    no input error begins exactly one: the settings are saved (the secret
    only if the box is ticked), Cloudinary is configured with the secret as
    typed, and one thread is started on the trimmed source and destination
    with the parsed scale, which is not [<= 0]; Start is disabled, Stop
    enabled, the stop flag cleared and the bar at 0, with the form's entries
    and the queue untouched. *)
Theorem job_starts_iff_no_input_error ge g :
  (forall j, GUI.ThreadStart j ∈ (GUI.start_processing ge g).2 -> ~ GUI.input_error ge g)
  /\ (~ GUI.input_error ge g ->
      exists scale_f,
        GUI.float_of_str ge (GUI.strip (GUI.entry_scale g)) = Ret scale_f
        /\ (scale_f <=? 0)%float = false
        /\ GUI.isdir ge (GUI.strip (GUI.entry_source g)) = true
        /\ GUI.strip (GUI.entry_output g) <> ""
        /\ GUI.start_processing ge g
           = (GUI.Gui (GUI.entry_name g) (GUI.entry_key g) (GUI.entry_secret g)
                (GUI.entry_source g) (GUI.entry_output g) (GUI.entry_scale g)
                (GUI.save_secret_var g) false true false 0 "Запуск..." (GUI.queue g),
              [GUI.SaveConfig
                 (GUI.Config (GUI.strip (GUI.entry_name g)) (GUI.strip (GUI.entry_key g))
                    (if GUI.save_secret_var g then GUI.strip (GUI.entry_secret g) else ""));
               GUI.ConfigureCloudinary
                 (GUI.Config (GUI.strip (GUI.entry_name g)) (GUI.strip (GUI.entry_key g))
                    (GUI.strip (GUI.entry_secret g)));
               GUI.ThreadStart
                 (GUI.Job (GUI.strip (GUI.entry_source g)) (GUI.strip (GUI.entry_output g))
                    scale_f)])).
Proof.
  split; [|apply start_accepted].
  intros j Hin Herr. destruct (start_refused ge g Herr) as (message & Heffs).
  rewrite Heffs in Hin. apply list_elem_of_singleton in Hin. discriminate.
Qed.

Lemma lstrip_all_space s : UI.all_space s = true -> GUI.lstrip s = "".
Proof.
  induction s as [|c s IH]; simpl; [done|].
  intros [Hc Hs]%andb_true_iff. rewrite Hc. auto.
Qed.

Lemma strip_all_space s : UI.all_space s = true -> GUI.strip s = "".
Proof. intros H. unfold GUI.strip. by rewrite lstrip_all_space. Qed.

(** X7. A cloud name or an API key that holds nothing but whitespace counts
    as missing: the start is rejected with the credentials message. *)
Theorem blank_credentials_are_rejected ge g :
  UI.all_space (GUI.entry_name g) = true \/ UI.all_space (GUI.entry_key g) = true ->
  GUI.start_processing ge g = (g, [GUI.ShowError GUI.err_title GUI.err_credentials]).
Proof.
  intros H. unfold GUI.start_processing.
  destruct H as [H|H]; apply strip_all_space in H; rewrite H; simpl;
    [done|by rewrite orb_true_r].
Qed.

(** An API key of two spaces. *)
Lemma blank_credentials_are_rejected_witness :
  GUI.start_processing Sample.desktop (Sample.form "demo" "  " "secret")
  = (Sample.form "demo" "  " "secret", [GUI.ShowError GUI.err_title GUI.err_credentials]).
Proof.
  apply (blank_credentials_are_rejected Sample.desktop (Sample.form "demo" "  " "secret")).
  right. reflexivity.
Defined.

(** ** The settings file *)

(** X9. [load_config] never raises, and it returns the default settings
    unless the file exists, can be read and parses; then it returns what
    [json.load] gives, logging nothing. *)
Theorem load_config_falls_back sys d :
  let r := Settings.load_config sys d in
  (r.1 <> Settings.default_config ->
     exists data,
       Settings.disk_files d !! Settings.CONFIG_FILE = Some data
       /\ Settings.read_fault sys = None
       /\ Settings.load sys data = Ret r.1
       /\ r.2 = [])
  /\ (Settings.disk_files d !! Settings.CONFIG_FILE = None ->
      r.1 = Settings.default_config)
  /\ (forall data v,
        Settings.disk_files d !! Settings.CONFIG_FILE = Some data ->
        Settings.read_fault sys = None ->
        Settings.load sys data = Ret v ->
        r = (v, [])).
Proof.
  unfold Settings.load_config, Settings.load_config_body, Settings.path_exists.
  destruct (Settings.disk_files d !! Settings.CONFIG_FILE) as [data|] eqn:Hfile.
  - rewrite bool_decide_eq_true_2 by eauto. simpl.
    destruct (Settings.read_fault sys) eqn:Hread; simpl.
    + repeat split; try done.
    + destruct (Settings.load sys data) as [v|msg] eqn:Hload; simpl.
      * split; [intros _; exists data; done|]. split; [done|].
        intros data' v' [= <-] _ Hl. congruence.
      * split; [done|]. split; [done|]. intros data' v' [= <-] _ Hl. congruence.
  - destruct (_ || _); simpl.
    + destruct (Settings.read_fault sys); simpl; repeat split; done.
    + repeat split; done.
Qed.

(** X10. What [save_config] has written, [load_config] reads back: when the
    file can be opened and written, [json.dump] does not raise and
    [json.load] parses what [json.dump] writes, loading after saving returns
    the saved settings, whatever the file held before. *)
Theorem load_after_save sys data d :
  Settings.open_write_fault sys = None ->
  Settings.write_fault sys = None ->
  Settings.read_fault sys = None ->
  (Settings.dump sys data).2 = None ->
  Settings.load sys (Settings.dump sys data).1 = Ret data ->
  Settings.save_config sys data d
  = (Settings.put_file Settings.CONFIG_FILE (Settings.dump sys data).1 d, [])
  /\ Settings.load_config sys (Settings.save_config sys data d).1 = (data, []).
Proof.
  intros Hopen Hwrite Hread Hdump Hload.
  unfold Settings.save_config, Settings.save_config_body.
  rewrite Hopen, Hwrite. destruct (Settings.dump sys data) as [written exn].
  simpl in *. subst exn. split; [done|].
  unfold Settings.load_config, Settings.load_config_body, Settings.path_exists.
  simpl. rewrite lookup_insert_eq, Hread, Hload.
  rewrite bool_decide_eq_true_2 by eauto. done.
Qed.

(** The empty dictionary, saved over a file that held something else. *)
Lemma load_after_save_witness :
  Settings.save_config (Scenario.codec None) (Settings.VDict []) Scenario.old_disk
  = (Settings.put_file Settings.CONFIG_FILE Scenario.braces Scenario.old_disk, [])
  /\ Settings.load_config (Scenario.codec None)
       (Settings.save_config (Scenario.codec None) (Settings.VDict []) Scenario.old_disk).1
     = (Settings.VDict [], []).
Proof.
  apply (load_after_save (Scenario.codec None) (Settings.VDict []) Scenario.old_disk);
    reflexivity.
Defined.


(** X12. With the box unticked, what a start writes to the settings file
    does not depend on the secret typed: two forms that differ only in the
    secret leave the same disk. *)
Theorem unticked_secret_is_not_saved sys ge g secret d :
  GUI.save_secret_var g = false ->
  Settings.disk_after_start sys ge (Settings.with_secret secret g) d
  = Settings.disk_after_start sys ge g d.
Proof.
  intros Hbox. unfold Settings.disk_after_start, GUI.start_processing. simpl.
  rewrite Hbox.
  destruct (_ || _); [done|]. destruct (_ || _); [done|].
  destruct (String.eqb _ _); [done|]. destruct (GUI.parse_scale ge _); done.
Qed.

(** Two secrets, the box unticked: the same disk. *)
Lemma unticked_secret_is_not_saved_witness :
  Settings.disk_after_start (Scenario.codec None) Sample.desktop
    (Settings.with_secret "another" (Sample.form "demo" "key" "secret")) Scenario.empty_disk
  = Settings.disk_after_start (Scenario.codec None) Sample.desktop
      (Sample.form "demo" "key" "secret") Scenario.empty_disk.
Proof.
  apply (unticked_secret_is_not_saved (Scenario.codec None) Sample.desktop
           (Sample.form "demo" "key" "secret") "another" Scenario.empty_disk).
  reflexivity.
Defined.

(** ** More on one call of [upscale_image] *)

(** X13. When every step succeeds, the call returns [(True, "OK")], the
    destination holds exactly the body of the response, its parent directory
    and all the ancestors of that exist, no other file is touched, and the
    calls made are, in order: open the image, upload, GET, make the
    directory, open the destination, write. *)
Theorem successful_call_writes_the_download e ip op sc t w W H tw d resp :
  image_open e ip = Ret (W, H) ->
  Num.target_width W sc = Ret tw ->
  upload e ip tw = Ret d ->
  truthy (url_of d) = true ->
  http_get e (default "" (url_of d)) t = Ret resp ->
  status_code resp = 200 ->
  mkdir_fault e (parent op) = None ->
  open_fault e op = None ->
  write_fault e op = None ->
  upscale_image e ip op sc t w
  = (Ret (true, "OK"),
     World (<[op := content resp]> (files w))
       (dirs w ∪ list_to_set (ancestors_and_self (parent op)))
       (trace w ++ [ImageOpen ip; Upload ip tw; HttpGet (default "" (url_of d)) t;
                    Mkdir (parent op); OpenWb op; Write op (content resp)])).
Proof.
  intros Hopen Hw Hup Hurl Hget Hst Hmk Hop Hwr.
  unfold upscale_image, upscale_image_body. unfold_monad.
  rewrite Hopen. simpl. rewrite Hw. simpl. rewrite Hup. simpl. rewrite Hurl. simpl.
  rewrite Hget. simpl. rewrite Hst. simpl. rewrite Hmk. simpl. rewrite Hop. simpl.
  rewrite Hwr. simpl. rewrite insert_insert_eq, <- !app_assoc. reflexivity.
Qed.

(** A 1000 pixel wide image, doubled. *)
Lemma successful_call_writes_the_download_witness :
  upscale_image Scenario.three ["photos"; "a.jpg"] ["upscaled"; "ua.jpg"] 2 60 empty_world
  = (Ret (true, "OK"),
     World (<[ ["upscaled"; "ua.jpg"] := content Sample.ok_response ]> (files empty_world))
       (dirs empty_world ∪ list_to_set (ancestors_and_self (parent ["upscaled"; "ua.jpg"])))
       (trace empty_world
        ++ [ImageOpen ["photos"; "a.jpg"]; Upload ["photos"; "a.jpg"] 2000;
            HttpGet (default "" (url_of {[ "secure_url" := "https://res.example/a.jpg" ]})) 60;
            Mkdir (parent ["upscaled"; "ua.jpg"]); OpenWb ["upscaled"; "ua.jpg"];
            Write ["upscaled"; "ua.jpg"] (content Sample.ok_response)])).
Proof.
  apply (successful_call_writes_the_download Scenario.three ["photos"; "a.jpg"]
           ["upscaled"; "ua.jpg"] 2 60 empty_world 1000 750 2000
           {[ "secure_url" := "https://res.example/a.jpg" ]} Sample.ok_response);
    reflexivity.
Defined.

(** X14. There is no retry and no step out of turn: whatever the outside
    does, the calls of one [upscale_image], log records apart, are an initial
    part of: open the image, one upload, one GET, make the parent directory,
    open the destination, one write. *)
Theorem one_attempt_in_fixed_order e ip op sc t :
  exists tw url data,
    calls (upscale_actions e ip op sc t)
    `prefix_of` [ImageOpen ip; Upload ip tw; HttpGet url t;
                 Mkdir (parent op); OpenWb op; Write op data].
Proof.
  unfold upscale_actions, upscale_image, upscale_image_body. unfold_monad.
  destruct (image_open e ip) as [[W H]|m]; simpl.
  2:{ exists 0, "", []. eexists. reflexivity. }
  destruct (Num.target_width W sc) as [tw|m]; simpl.
  2:{ exists 0, "", []. eexists. reflexivity. }
  exists tw.
  destruct (upload e ip tw) as [d|m]; simpl.
  2:{ exists "", []. eexists. reflexivity. }
  destruct (truthy _); simpl.
  2:{ exists "", []. eexists. reflexivity. }
  exists (default "" (url_of d)).
  destruct (http_get e _ t) as [resp|m]; simpl.
  2:{ exists []. eexists. reflexivity. }
  exists (content resp).
  destruct (status_code resp =? 200); simpl; [|eexists; reflexivity].
  destruct (mkdir_fault e _); simpl; [eexists; reflexivity|].
  destruct (open_fault e _); simpl; [eexists; reflexivity|].
  destruct (write_fault e _) as [[n m]|]; simpl; eexists; reflexivity.
Qed.

(** X15. Which URL is fetched: the response's [secure_url] when it has a
    non-empty one, otherwise its [url] when that is non-empty; when it has
    neither, nothing is fetched, no file but the log is written and the call
    returns [(False, "Cloudinary did not return a URL")]. *)
Theorem fetched_url_prefers_secure e ip op sc t w W H tw d :
  image_open e ip = Ret (W, H) ->
  Num.target_width W sc = Ret tw ->
  upload e ip tw = Ret d ->
  let r := upscale_image e ip op sc t w in
  let fetched := gets (new_actions w r.2) in
  (forall s, d !! "secure_url" = Some s -> s <> "" -> fetched = [(s, t)])
  /\ (forall u, truthy (d !! "secure_url") = false -> d !! "url" = Some u -> u <> "" ->
        fetched = [(u, t)])
  /\ (truthy (d !! "secure_url") = false -> truthy (d !! "url") = false ->
        fetched = [] /\ r.1 = Ret (false, no_url_msg)
        /\ files r.2 = files w /\ dirs r.2 = dirs w).
Proof.
  intros Hopen Hw Hup r fetched. subst fetched r.
  rewrite upscale_image_new_actions.
  unfold upscale_actions, upscale_image, upscale_image_body. unfold_monad.
  rewrite Hopen. simpl. rewrite Hw. simpl. rewrite Hup. simpl.
  unfold url_of, py_or.
  split; [|split].
  - intros s Hs Hne. rewrite Hs. simpl.
    apply String.eqb_neq in Hne. rewrite Hne. simpl. rewrite Hne. simpl.
    cascade; reflexivity.
  - intros u Hsec Hu Hne. rewrite Hsec, Hu. simpl.
    apply String.eqb_neq in Hne. rewrite Hne. simpl.
    cascade; reflexivity.
  - intros Hsec Hurl. rewrite Hsec, Hurl. simpl. done.
Qed.

(** A response with a plain [url] only: that one is fetched. *)
Lemma fetched_url_prefers_secure_witness :
  gets (new_actions empty_world
          (upscale_image Scenario.plain_url ["photos"; "a.jpg"] ["upscaled"; "ua.jpg"]
             2 60 empty_world).2)
  = [("http://res.example/a.jpg", 60)].
Proof.
  destruct (fetched_url_prefers_secure Scenario.plain_url ["photos"; "a.jpg"]
              ["upscaled"; "ua.jpg"] 2 60 empty_world 1000 750 2000
              {[ "url" := "http://res.example/a.jpg" ]} eq_refl eq_refl eq_refl)
    as (_ & Hplain & _).
  apply Hplain; [reflexivity|reflexivity|discriminate].
Defined.

(** ** More on the worker *)

Lemma target_width_at_least_1 W sc tw : Num.target_width W sc = Ret tw -> 1 <= tw.
Proof.
  unfold Num.target_width. destruct (Num.int_mul_float W sc); [|discriminate].
  destruct (Num.int_of_float _); [|discriminate]. intros [= <-]. lia.
Qed.

(** One call opens its image once, and uploads it at most once, with a width
    of at least 1. *)
Lemma upscale_actions_opens_uploads e ip op sc t :
  opens (upscale_actions e ip op sc t) = [ip]
  /\ (uploads (upscale_actions e ip op sc t) = []
      \/ exists tw, uploads (upscale_actions e ip op sc t) = [(ip, tw)] /\ 1 <= tw).
Proof.
  unfold upscale_actions, upscale_image, upscale_image_body. unfold_monad.
  destruct (image_open e ip) as [[W H]|m]; simpl; [|by split; [|left]].
  destruct (Num.target_width W sc) as [tw|m] eqn:Hw; simpl; [|by split; [|left]].
  apply target_width_at_least_1 in Hw.
  cascade; (split; [reflexivity|right; exists tw; split; [reflexivity|done]]).
Qed.

Section LoopCalls.

Context (e : env) (out : path) (sc : float) (total : nat).

Lemma file_block_opens_uploads idx p :
  opens (file_block e out sc total idx p) = [p]
  /\ (forall p' width, (p', width) ∈ uploads (file_block e out sc total idx p) ->
        p' = p /\ 1 <= width).
Proof.
  unfold file_block.
  destruct (upscale_actions_opens_uploads e p (joinpath out ("u" +:+ name p)) sc 60)
    as (Hopens & Hup).
  destruct (upscale_verdict e p _ sc 60) as [[] msg]; simpl;
    rewrite opens_app, uploads_app, Hopens; simpl; rewrite app_nil_r;
    (split; [done|]); intros p' width Hin;
    (destruct Hup as [Hup|(tw & Hup & Htw)]; rewrite Hup in Hin;
     [by apply elem_of_nil in Hin|apply list_elem_of_singleton in Hin; by injection Hin as -> ->]).
Qed.

Lemma loop_trace_uploads fs : forall idx p width,
  (p, width) ∈ uploads (loop_trace e out sc total fs idx) -> p ∈ fs /\ 1 <= width.
Proof.
  induction fs as [|p0 fs IH]; intros idx p width Hin; simpl in *.
  - by apply elem_of_nil in Hin.
  - destruct (stop_is_set e idx); simpl in *; [by apply elem_of_nil in Hin|].
    rewrite uploads_app in Hin. apply elem_of_app in Hin as [Hin|Hin].
    + destruct (file_block_opens_uploads idx p0) as (_ & Hup).
      destruct (Hup p width Hin) as (-> & Hw). split; [apply elem_of_cons; by left|done].
    + destruct (IH _ _ _ Hin) as (Hp & Hw). split; [apply elem_of_cons; by right|done].
Qed.

End LoopCalls.

(** X16. The worker opens the candidates in the order of the listing, each
    once, and none from the first position on at which the stop flag is seen
    set. *)
Theorem worker_opens_candidates_in_order e src out sc w entries :
  mkdir_fault e out = None ->
  iterdir e src = Ret entries ->
  let fs := image_files_of src entries in
  opens (new_actions w (process_all_images_worker e src out sc w).2)
  = take (attempted e 1 (length fs)) fs.
Proof.
  intros Hmk Hit fs.
  destruct (worker_run e src out sc w entries Hmk Hit) as (f1 & d1 & ->).
  simpl. rewrite new_actions_app. simpl. rewrite opens_app. simpl.
  rewrite app_nil_r. apply loop_trace_opens.
Qed.

(** Five files and a stop at the third check: the first two are opened. *)
Lemma worker_opens_candidates_in_order_witness :
  let e := Sample.make (1000, 750) Sample.five_files [] 3 None in
  opens (new_actions empty_world
           (process_all_images_worker e Sample.src Sample.out 2 empty_world).2)
  = take (attempted e 1 5) (image_files_of Sample.src Sample.five_files).
Proof.
  intros e.
  apply (worker_opens_candidates_in_order e Sample.src Sample.out 2 empty_world
           Sample.five_files); reflexivity.
Defined.

(** X17. In every run of the worker, whatever the faults, every upload is of
    a candidate of the listing and asks for a width of at least 1. *)
Theorem worker_uploads_only_candidates e src out sc w p width :
  (p, width) ∈ uploads (new_actions w (process_all_images_worker e src out sc w).2) ->
  1 <= width
  /\ exists entries, iterdir e src = Ret entries /\ p ∈ image_files_of src entries.
Proof.
  destruct (worker_run_cases e src out sc w)
    as [(msg & _ & _ & ->)|[(msg & _ & _ & _ & ->)|(entries & _ & Hit & _ & ->)]];
    simpl; intros Hin; try by apply elem_of_nil in Hin.
  rewrite uploads_app in Hin. simpl in Hin. rewrite app_nil_r in Hin.
  apply loop_trace_uploads in Hin as (Hp & Hw). eauto.
Qed.

(** The upload of the third of three files. *)
Lemma worker_uploads_only_candidates_witness :
  1 <= 2000
  /\ exists entries,
       iterdir Scenario.three Sample.src = Ret entries
       /\ ["photos"; "c.jpg"] ∈ image_files_of Sample.src entries.
Proof.
  apply (worker_uploads_only_candidates Scenario.three Sample.src Sample.out 2 empty_world).
  apply list_elem_of_In. vm_compute. auto.
Defined.

(** What one call does to the files: only the destination can change, no
    file disappears, and a call that returns [True] has left the body of the
    response at the destination. *)
Lemma upscale_image_files e ip op sc t w :
  let w' := (upscale_image e ip op sc t w).2 in
  (forall q, q <> op -> files w' !! q = files w !! q)
  /\ (forall q, is_Some (files w !! q) -> is_Some (files w' !! q))
  /\ ((upscale_verdict e ip op sc t).1 = true ->
      exists W H tw d resp,
        image_open e ip = Ret (W, H)
        /\ Num.target_width W sc = Ret tw
        /\ upload e ip tw = Ret d
        /\ http_get e (default "" (url_of d)) t = Ret resp
        /\ files w' !! op = Some (content resp)).
Proof.
  unfold upscale_verdict, upscale_image, upscale_image_body. unfold_monad.
  destruct (image_open e ip) as [[W H]|m] eqn:Hopen; simpl; [|done].
  destruct (Num.target_width W sc) as [tw|m] eqn:Hw; simpl; [|done].
  destruct (upload e ip tw) as [d|m] eqn:Hup; simpl; [|done].
  destruct (truthy _) eqn:Hurl; simpl; [|done].
  destruct (http_get e _ t) as [resp|m] eqn:Hget; simpl; [|done].
  destruct (status_code resp =? 200) eqn:Hst; simpl; [|done].
  destruct (mkdir_fault e _) eqn:Hmk; simpl; [done|].
  assert (Hsome : forall (m : gmap path bytes) q x,
            is_Some (m !! q) -> is_Some (<[op := x]> m !! q)).
  { intros m q x Hq. destruct (decide (op = q)) as [->|Hne];
      [rewrite lookup_insert_eq; eauto|by rewrite lookup_insert_ne]. }
  destruct (open_fault e _) eqn:Hop; simpl; [done|].
  destruct (write_fault e _) as [[n m]|] eqn:Hwr; simpl.
  - split; [|split; [|done]].
    + intros q Hq. by rewrite !lookup_insert_ne.
    + intros q Hq. by do 2 apply Hsome.
  - split; [|split].
    + intros q Hq. by rewrite !lookup_insert_ne.
    + intros q Hq. by do 2 apply Hsome.
    + intros _. exists W, H, tw, d, resp. rewrite lookup_insert_eq. done.
Qed.

(** One call removes no directory. *)
Lemma upscale_image_dirs e ip op sc t w :
  dirs w ⊆ dirs (upscale_image e ip op sc t w).2.
Proof.
  unfold upscale_image, upscale_image_body. unfold_monad.
  cascade; set_solver.
Qed.

Section LoopFiles.

Context (e : env) (out : path) (sc : float) (total : nat).

(** One turn of the loop that passes the stop check. *)
Lemma worker_loop_step p fs idx s w :
  stop_is_set e idx = false ->
  exists s' w1 w3,
    files w1 = files w
    /\ dirs w1 = dirs w
    /\ files w3 = files (upscale_image e p (out_path out p) sc 60 w1).2
    /\ dirs w3 = dirs (upscale_image e p (out_path out p) sc 60 w1).2
    /\ worker_loop e out sc total (p :: fs) idx s w
       = worker_loop e out sc total fs (S idx) s' w3.
Proof.
  intros Hstop. simpl. unfold_monad. rewrite Hstop. simpl.
  set (w1 := World _ _ _).
  destruct (upscale_image_run e p (joinpath out ("u" +:+ name p)) sc 60 w1)
    as (f1 & d1 & Hrun).
  unfold out_path. rewrite Hrun.
  destruct (upscale_verdict e p _ sc 60) as [[] msg]; simpl;
    eexists _, w1, _; (split; [reflexivity|]); (split; [reflexivity|]);
    (split; [|split]; [..|reflexivity]); rewrite Hrun; reflexivity.
Qed.

Lemma worker_loop_stopped p fs idx s w :
  stop_is_set e idx = true ->
  files (worker_loop e out sc total (p :: fs) idx s w).2 = files w
  /\ dirs (worker_loop e out sc total (p :: fs) idx s w).2 = dirs w.
Proof. intros Hstop. simpl. unfold_monad. rewrite Hstop. done. Qed.

(** The loop removes no directory. *)
Lemma worker_loop_dirs fs : forall idx s w,
  dirs w ⊆ dirs (worker_loop e out sc total fs idx s w).2.
Proof.
  induction fs as [|p fs IH]; intros idx s w; [done|].
  destruct (stop_is_set e idx) eqn:Hstop.
  - by destruct (worker_loop_stopped p fs idx s w Hstop) as (_ & ->).
  - destruct (worker_loop_step p fs idx s w Hstop)
      as (s' & w1 & w3 & _ & H1 & _ & H3 & ->).
    etrans; [|apply IH]. rewrite H3, <- H1. apply upscale_image_dirs.
Qed.

Lemma worker_loop_files fs : forall idx s w,
  let w' := (worker_loop e out sc total fs idx s w).2 in
  (forall q, (forall p, p ∈ fs -> q <> out_path out p) -> files w' !! q = files w !! q)
  /\ (forall q, is_Some (files w !! q) -> is_Some (files w' !! q))
  /\ (NoDup (out_path out <$> fs) ->
      forall i p,
        fs !! i = Some p ->
        (i < attempted e idx (length fs))%nat ->
        (upscale_verdict e p (out_path out p) sc 60).1 = true ->
        exists W H tw d resp,
          image_open e p = Ret (W, H)
          /\ Num.target_width W sc = Ret tw
          /\ upload e p tw = Ret d
          /\ http_get e (default "" (url_of d)) 60 = Ret resp
          /\ files w' !! out_path out p = Some (content resp)).
Proof.
  induction fs as [|p fs IH]; intros idx s w.
  - simpl. split; [done|]. split; [done|]. intros _ i p Hi. done.
  - destruct (stop_is_set e idx) eqn:Hstop.
    + cbv zeta. destruct (worker_loop_stopped p fs idx s w Hstop) as (-> & _).
      split; [done|]. split; [done|]. intros _ i p0 _ Hlt. simpl in Hlt.
      rewrite Hstop in Hlt. lia.
    + destruct (worker_loop_step p fs idx s w Hstop)
        as (s' & w1 & w3 & H1 & _ & H3 & _ & ->).
      destruct (IH (S idx) s' w3) as (Hframe & Hkeep & Hok).
      destruct (upscale_image_files e p (out_path out p) sc 60 w1)
        as (Hframe1 & Hkeep1 & Hok1).
      cbv zeta in *. rewrite <- H3, H1 in *.
      split; [|split].
      * intros q Hq. rewrite Hframe.
        -- apply Hframe1. apply Hq. apply elem_of_cons. by left.
        -- intros p' Hp'. apply Hq. apply elem_of_cons. by right.
      * intros q Hq. by apply Hkeep, Hkeep1.
      * intros Hnd i p0 Hi Hlt Hv. simpl in Hnd. apply NoDup_cons in Hnd as [Hnotin Hnd].
        destruct i as [|i]; simpl in Hi.
        -- injection Hi as <-.
           destruct (Hok1 Hv) as (W & H & tw & d & resp & ? & ? & ? & ? & Hfile).
           exists W, H, tw, d, resp. repeat split; try done.
           rewrite Hframe; [done|].
           intros p' Hp' Heq. apply Hnotin. rewrite Heq.
           apply list_elem_of_fmap. eauto.
        -- simpl in Hlt. rewrite Hstop in Hlt.
           apply (Hok Hnd i p0 Hi); [lia|done].
Qed.

(** A result that carries [True] is that of a file the loop attempted and
    for which [upscale_image] returned [True]. *)
Lemma loop_success_is_attempted fs : forall idx0 idx d,
  Progress idx true d ∈ queue_of (loop_trace e out sc total fs idx0) ->
  exists p,
    fs !! (idx - idx0)%nat = Some p
    /\ (idx0 <= idx)%nat
    /\ (idx - idx0 < attempted e idx0 (length fs))%nat
    /\ (upscale_verdict e p (out_path out p) sc 60).1 = true.
Proof.
  induction fs as [|p fs IH]; intros idx0 idx d Hin; simpl in *.
  - by apply elem_of_nil in Hin.
  - destruct (stop_is_set e idx0); simpl in *.
    + apply list_elem_of_singleton in Hin. discriminate.
    + rewrite queue_of_app in Hin. apply elem_of_app in Hin as [Hin|Hin].
      * destruct (queue_of_file_block e out sc total idx0 p) as (ok & d0 & Hq & Hok).
        rewrite Hq in Hin. apply elem_of_cons in Hin as [?|Hin]; [discriminate|].
        apply list_elem_of_singleton in Hin. injection Hin as -> <- <-.
        exists p. rewrite Nat.sub_diag. repeat split; [lia|lia|done].
      * destruct (IH _ _ _ Hin) as (p' & Hp' & Hle & Hlt & Hv).
        exists p'. replace (idx - idx0)%nat with (S (idx - S idx0)) by lia.
        repeat split; [done|lia|lia|done].
Qed.

End LoopFiles.

Lemma worker_files e src out sc w entries :
  mkdir_fault e out = None ->
  iterdir e src = Ret entries ->
  let fs := image_files_of src entries in
  exists w1,
    files w1 = files w
    /\ files (process_all_images_worker e src out sc w).2
       = files (worker_loop e out sc (length fs) fs 1 0 w1).2.
Proof.
  intros Hmk Hit fs. unfold process_all_images_worker. unfold_monad.
  rewrite Hmk, Hit. simpl. fold fs. set (w1 := World _ _ _).
  exists w1. split; [done|].
  destruct (worker_loop_run e out sc (length fs) fs 1 0 w1) as (f1 & d1 & ->). done.
Qed.

Lemma worker_files_on_fault e src out sc w :
  (process_all_images_worker e src out sc w).1 <> Ret tt ->
  files (process_all_images_worker e src out sc w).2 = files w.
Proof.
  unfold process_all_images_worker. unfold_monad.
  destruct (mkdir_fault e out); simpl; [done|].
  destruct (iterdir e src) as [entries|msg]; simpl; [|done].
  set (fs := image_files_of src entries). set (w1 := World _ _ _).
  destruct (worker_loop_run e out sc (length fs) fs 1 0 w1) as (f1 & d1 & ->). done.
Qed.

(** X18. The log file apart, the worker changes no file but its own outputs,
    and removes none: a path that is not [<out>/u<name>] for a candidate of
    the listing holds after the run what it held before, and every file that
    existed still exists. *)
Theorem worker_touches_only_its_outputs e src out sc w q :
  (forall entries p,
     iterdir e src = Ret entries -> p ∈ image_files_of src entries ->
     q <> out_path out p) ->
  let w' := (process_all_images_worker e src out sc w).2 in
  files w' !! q = files w !! q
  /\ (forall q', is_Some (files w !! q') -> is_Some (files w' !! q')).
Proof.
  intros Hq w'. subst w'.
  destruct (worker_run_cases e src out sc w)
    as [(msg & _ & Hr & _)|[(msg & _ & _ & Hr & _)|(entries & Hmk & Hit & _ & _)]].
  - rewrite worker_files_on_fault by (rewrite Hr; done). done.
  - rewrite worker_files_on_fault by (rewrite Hr; done). done.
  - destruct (worker_files e src out sc w entries Hmk Hit) as (w1 & H1 & ->).
    destruct (worker_loop_files e out sc (length (image_files_of src entries))
                (image_files_of src entries) 1 0 w1) as (Hframe & Hkeep & _).
    cbv zeta in *. rewrite H1 in *. split; [|done].
    apply Hframe. intros p Hp. by apply (Hq entries).
Qed.

(** A file of the output directory that is no output of the run. *)
Lemma worker_touches_only_its_outputs_witness :
  let w := World {[ ["upscaled"; "notes.txt"] := [Byte.x68; Byte.x69] ]} ∅ [] in
  let w' := (process_all_images_worker Scenario.three Sample.src Sample.out 2 w).2 in
  files w' !! ["upscaled"; "notes.txt"] = files w !! ["upscaled"; "notes.txt"]
  /\ (forall q', is_Some (files w !! q') -> is_Some (files w' !! q')).
Proof.
  intros w.
  apply (worker_touches_only_its_outputs Scenario.three Sample.src Sample.out 2 w).
  intros entries p Hls Hp. injection Hls as <-.
  apply list_elem_of_In in Hp. simpl in Hp.
  destruct Hp as [<-|[<-|[<-|[]]]]; discriminate.
Defined.

Lemma name_joinpath src nm : name (joinpath src nm) = nm.
Proof. unfold name, joinpath. apply last_last. Qed.

Lemma filter_names_NoDup (f : dir_entry -> bool) entries :
  NoDup (entry_name <$> entries) -> NoDup (entry_name <$> List.filter f entries).
Proof.
  induction entries as [|x entries IH]; simpl; [done|].
  intros [Hx Hnd]%NoDup_cons. destruct (f x); simpl; [|auto].
  apply NoDup_cons. split; [|auto].
  intros Hin. apply Hx. apply list_elem_of_fmap in Hin as (y & -> & Hy).
  apply list_elem_of_fmap. exists y. split; [done|].
  apply list_elem_of_In. apply list_elem_of_In, filter_In in Hy as [Hy _]. done.
Qed.

(** Distinct names in the listing give distinct destinations. *)
Lemma out_paths_NoDup src out entries :
  NoDup (entry_name <$> entries) ->
  NoDup (out_path out <$> image_files_of src entries).
Proof.
  intros Hnd. unfold image_files_of.
  rewrite <- list_fmap_compose.
  apply NoDup_fmap_2_strong; [|by apply filter_names_NoDup].
  intros x y _ _ Heq. unfold compose, out_path in Heq.
  rewrite !name_joinpath in Heq. unfold joinpath in Heq.
  apply app_inj_tail in Heq as [_ Heq]. by injection Heq.
Qed.

(** X19. A file the worker reports as done is on disk: for every result that
    carries [True], the candidate at that position was opened, uploaded and
    fetched, and after the run [<out>/u<name>] holds the body of the response
    to that GET; the names of the listing being distinct, as they are in a
    directory. *)
Theorem reported_success_is_on_disk e src out sc w entries idx d :
  mkdir_fault e out = None ->
  iterdir e src = Ret entries ->
  NoDup (entry_name <$> entries) ->
  Progress idx true d ∈ pushed w (process_all_images_worker e src out sc w).2 ->
  exists p W H tw result resp,
    image_files_of src entries !! (idx - 1)%nat = Some p
    /\ image_open e p = Ret (W, H)
    /\ Num.target_width W sc = Ret tw
    /\ upload e p tw = Ret result
    /\ http_get e (default "" (url_of result)) 60 = Ret resp
    /\ files (process_all_images_worker e src out sc w).2 !! out_path out p
       = Some (content resp).
Proof.
  intros Hmk Hit Hnd Hin.
  rewrite (worker_pushed e src out sc w entries Hmk Hit) in Hin.
  set (fs := image_files_of src entries) in *.
  apply elem_of_cons in Hin as [?|Hin]; [discriminate|].
  apply elem_of_app in Hin as [Hin|Hin];
    [|apply list_elem_of_singleton in Hin; discriminate].
  destruct (loop_success_is_attempted e out sc (length fs) fs 1 idx d Hin)
    as (p & Hp & Hle & Hlt & Hv).
  destruct (worker_files e src out sc w entries Hmk Hit) as (w1 & H1 & ->). fold fs.
  destruct (worker_loop_files e out sc (length fs) fs 1 0 w1) as (_ & _ & Hok).
  destruct (Hok (out_paths_NoDup src out entries Hnd) _ p Hp Hlt Hv)
    as (W & H & tw & result & resp & ? & ? & ? & ? & ?).
  exists p, W, H, tw, result, resp. done.
Qed.

(** The third of three files, reported as done. *)
Lemma reported_success_is_on_disk_witness :
  exists p W H tw result resp,
    image_files_of Sample.src Sample.three_files !! (3 - 1)%nat = Some p
    /\ image_open Scenario.three p = Ret (W, H)
    /\ Num.target_width W 2 = Ret tw
    /\ upload Scenario.three p tw = Ret result
    /\ http_get Scenario.three (default "" (url_of result)) 60 = Ret resp
    /\ files (process_all_images_worker Scenario.three Sample.src Sample.out 2 empty_world).2
         !! out_path Sample.out p
       = Some (content resp).
Proof.
  apply (reported_success_is_on_disk Scenario.three Sample.src Sample.out 2 empty_world
           Sample.three_files 3 "c.jpg"); [reflexivity|reflexivity| |].
  - apply (bool_decide_unpack _). reflexivity.
  - apply list_elem_of_In. vm_compute. auto 10.
Defined.

(** X21. Once the output directory could be created, it exists after the
    run with all its ancestors, whether or not there was any candidate and
    even if the listing of the source then fails; and the run removes no
    directory. *)
Theorem worker_creates_output_directory e src out sc w dir :
  mkdir_fault e out = None ->
  dir ∈ ancestors_and_self out \/ dir ∈ dirs w ->
  dir ∈ dirs (process_all_images_worker e src out sc w).2.
Proof.
  intros Hmk Hdir.
  assert (Hin : dir ∈ dirs w ∪ list_to_set (ancestors_and_self out)).
  { destruct Hdir; [apply elem_of_union_r, elem_of_list_to_set|apply elem_of_union_l];
      done. }
  unfold process_all_images_worker. unfold_monad. rewrite Hmk. simpl.
  destruct (iterdir e src) as [entries|msg]; simpl; [|done].
  set (fs := image_files_of src entries). set (w1 := World _ _ _).
  pose proof (worker_loop_dirs e out sc (length fs) fs 1 0 w1) as Hsub.
  destruct (worker_loop e out sc (length fs) fs 1 0 w1) as [[s|msg] w2]; simpl in *;
    apply Hsub; done.
Qed.

(** An empty source directory: the output directory is there after the run. *)
Lemma worker_creates_output_directory_witness :
  Sample.out ∈ dirs (process_all_images_worker
                       (Sample.make (1000, 750) [] [] 0 None)
                       Sample.src Sample.out 2 empty_world).2.
Proof.
  apply (worker_creates_output_directory (Sample.make (1000, 750) [] [] 0 None)
           Sample.src Sample.out 2 empty_world Sample.out); [reflexivity|].
  left. apply list_elem_of_In. vm_compute. auto.
Defined.

(** ** One worker at a time *)

(** What a run of the worker puts: nothing, or events that end with the only
    [done]. *)
Lemma worker_puts_end_with_done e src out sc w :
  let q := pushed w (process_all_images_worker e src out sc w).2 in
  q = [] \/ App.ends_with_done q.
Proof.
  intros q. subst q. unfold pushed.
  destruct (worker_run_cases e src out sc w)
    as [(msg & _ & _ & ->)|[(msg & _ & _ & _ & ->)|(entries & _ & _ & _ & ->)]];
    [by left|by left|right].
  set (fs := image_files_of src entries).
  destruct (loop_queue_facts e out sc (length fs) fs 1) as (_ & Hnd & _).
  simpl. rewrite queue_of_app. simpl.
  eexists (Total _ :: _), _, _. split; [reflexivity|]. simpl. done.
Qed.

Lemma ends_with_done_cons ev rest :
  App.ends_with_done (ev :: rest) ->
  (rest = [] /\ is_done ev = true)
  \/ (rest <> [] /\ is_done ev = false /\ App.ends_with_done rest).
Proof.
  intros (body & s & n & Heq & Hnd). destruct body as [|b body]; simpl in *.
  - injection Heq as -> <-. by left.
  - injection Heq as <- ->. right.
    destruct (is_done ev) eqn:Hev; [simpl in Hnd; lia|].
    split; [by destruct body|]. split; [done|].
    exists body, s, n. split; [done|]. simpl in Hnd. lia.
Qed.

Lemma start_processing_started ge g :
  let r := GUI.start_processing ge g in
  (App.started r.2 = false /\ r.1 = g)
  \/ (App.started r.2 = true
      /\ GUI.btn_start_enabled r.1 = false
      /\ GUI.queue r.1 = GUI.queue g).
Proof.
  unfold GUI.start_processing.
  destruct (_ || _); [by left|].
  destruct (_ || _); [by left|].
  destruct (String.eqb _ _); [by left|].
  destruct (GUI.parse_scale ge _); [|by left].
  right. done.
Qed.

Lemma guarded_step o st : App.guarded st -> App.guarded (App.step o st).
Proof.
  intros Hg. pose proof Hg as (Hlen & Hbusy & Hidle & Hall). destruct o; simpl.
  - (* a click on Start *)
    case_eq (GUI.btn_start_enabled (UI.widgets (App.window st))); intros Hen;
      [|done].
    assert (Hnone : App.workers st = []).
    { destruct (App.workers st); [done|]. destruct Hbusy as [? _]; [done|congruence]. }
    specialize (Hidle Hen). unfold UI.start_processing.
    destruct (start_processing_started ge (UI.widgets (App.window st)))
      as [(Hst & Heq)|(Hst & Hoff & Hq)];
      destruct (GUI.start_processing ge (UI.widgets (App.window st))) as [g' effs];
      cbn [fst snd] in *; rewrite Hst.
    + subst g'. unfold App.guarded. simpl. rewrite Hnone, Hen.
      repeat split; simpl; try done; lia.
    + rewrite Hnone. unfold App.guarded. simpl. rewrite Hoff, Hq.
      destruct (worker_puts_end_with_done e src out sc w) as [->|Hdone]; simpl.
      * repeat split; simpl; try done; lia.
      * destruct (pushed w _) as [|ev evs]; simpl.
        -- repeat split; simpl; try done; lia.
        -- repeat split; simpl; try done; try lia. repeat constructor. done.
  - (* a click on Stop *)
    case_eq (GUI.btn_stop_enabled (UI.widgets (App.window st))); intros Hen;
      [|done].
    destruct answer; done.
  - (* a put *)
    destruct (App.workers st) as [|t [|t' ws]] eqn:Hws; simpl in Hlen; try lia.
    { by rewrite lookup_nil. }
    destruct i as [|i]; simpl; [|done].
    destruct t as [|ev rest]; [done|].
    apply Forall_cons in Hall as [Ht _].
    destruct Hbusy as [Hoff Hq]; [done|].
    destruct (ends_with_done_cons ev rest Ht) as [(-> & Hev)|(Hne & Hev & Hrest)].
    + unfold App.guarded. simpl. rewrite Hoff. repeat split; simpl; try done; lia.
    + destruct rest as [|ev' rest]; [done|].
      unfold App.guarded. simpl. rewrite Hoff, count_app, Hq. simpl. rewrite Hev.
      repeat split; simpl; try done; try lia. repeat constructor. done.
  - (* a poll *)
    rewrite poll_queue_handle_all. unfold App.guarded. simpl.
    split; [done|]. split; [|done].
    intros Hne. destruct (Hbusy Hne) as [Hoff Hq]. split; [|done].
    by destruct (handle_all_keeps_buttons _ (App.window st) Hq) as (-> & _).
Qed.

(** X20. At most one worker is ever at work: starting from a window with no
    worker and no [done] waiting on the queue, whatever the user clicks and
    however the puts of the worker and the polls of the timer fall, a second
    thread is never started while the first still has something to put, so
    the events of two jobs never mix on the queue. *)
Theorem one_worker_at_a_time ops : forall st,
  App.workers st = [] ->
  count is_done (GUI.queue (UI.widgets (App.window st))) = 0%nat ->
  let st' := App.run ops st in
  (length (App.workers st') <= 1)%nat
  /\ (App.workers st' <> [] ->
      GUI.btn_start_enabled (UI.widgets (App.window st')) = false).
Proof.
  intros st Hws Hq st'. subst st'.
  assert (Hg : App.guarded st).
  { unfold App.guarded. rewrite Hws. repeat split; simpl; try done; lia. }
  clear Hws Hq. revert st Hg. unfold App.run.
  induction ops as [|o ops IH]; intros st Hg; simpl.
  - destruct Hg as (Hlen & Hbusy & _). split; [done|]. intros H. by apply Hbusy.
  - apply IH. by apply guarded_step.
Qed.

(** A session with a second click on Start. *)
Lemma one_worker_at_a_time_witness :
  let st' := App.run Scenario.session Scenario.idle in
  (length (App.workers st') <= 1)%nat
  /\ (App.workers st' <> [] ->
      GUI.btn_start_enabled (UI.widgets (App.window st')) = false).
Proof.
  apply (one_worker_at_a_time Scenario.session Scenario.idle); reflexivity.
Defined.

(** X5. Whatever the user clicks, whatever the workers put and whenever the
    queue is polled, the Start and Stop buttons are never both enabled. *)
Theorem buttons_never_both_enabled ops : forall st,
  GUI.btn_start_enabled (UI.widgets (App.window st))
  && GUI.btn_stop_enabled (UI.widgets (App.window st)) = false ->
  let g := UI.widgets (App.window (App.run ops st)) in
  GUI.btn_start_enabled g && GUI.btn_stop_enabled g = false.
Proof.
  unfold App.run. induction ops as [|o ops IH]; intros st Hinv; [done|].
  simpl. apply IH. destruct o; simpl.
  - case_eq (GUI.btn_start_enabled (UI.widgets (App.window st))); intros Hs; [|done].
    simpl. unfold UI.start_processing.
    destruct (start_processing_cases ge (UI.widgets (App.window st)))
      as [Heq|(H1 & H2 & _)];
      destruct (GUI.start_processing ge (UI.widgets (App.window st))) as [g' effs];
      cbn [fst UI.widgets] in *.
    + by subst g'.
    + by rewrite H1.
  - case_eq (GUI.btn_stop_enabled (UI.widgets (App.window st))); intros Hs; [|done].
    destruct answer; simpl; [apply andb_false_r|done].
  - destruct (App.workers st !! i) as [[|ev rest]|]; done.
  - rewrite poll_queue_handle_all. simpl.
    generalize (GUI.queue (UI.widgets (App.window st))). intros q.
    generalize (App.window st) Hinv. clear.
    induction q as [|item q IHq]; intros win Hinv; [done|].
    simpl. unfold UI.and_then.
    destruct (UI.handle item win) as [w1 e1] eqn:Hh.
    specialize (IHq w1). destruct (UI.handle_all q w1) as [w2 e2]. simpl in *.
    apply IHq.
    destruct item; try destruct ok; injection Hh as <- _; done.
Qed.

(** The same session. *)
Lemma buttons_never_both_enabled_witness :
  let g := UI.widgets (App.window (App.run Scenario.session Scenario.idle)) in
  GUI.btn_start_enabled g && GUI.btn_stop_enabled g = false.
Proof.
  apply (buttons_never_both_enabled Scenario.session Scenario.idle). reflexivity.
Defined.

(** No worker at work, Start disabled and no [done] waiting: nothing can
    enable Start again. *)
Lemma stuck_step o st :
  App.workers st = [] ->
  GUI.btn_start_enabled (UI.widgets (App.window st)) = false ->
  count is_done (GUI.queue (UI.widgets (App.window st))) = 0%nat ->
  let st' := App.step o st in
  App.workers st' = []
  /\ GUI.btn_start_enabled (UI.widgets (App.window st')) = false
  /\ count is_done (GUI.queue (UI.widgets (App.window st'))) = 0%nat.
Proof.
  intros Hws Hoff Hq. destruct o; simpl.
  - rewrite Hoff. done.
  - case_eq (GUI.btn_stop_enabled (UI.widgets (App.window st))); intros Hs; [|done].
    destruct answer; done.
  - rewrite Hws, lookup_nil. done.
  - rewrite poll_queue_handle_all. simpl. repeat split; [done|].
    by destruct (handle_all_keeps_buttons _ (App.window st) Hq) as (-> & _).
Qed.

(** X8. When the worker dies before its first put (the output directory
    cannot be created, or the source directory cannot be listed), nothing
    reaches the queue, and from then on nothing the user or the timer does
    enables the Start button again. *)
Theorem failed_setup_leaves_start_disabled ge e src out sc w ops st :
  App.workers st = [] ->
  GUI.btn_start_enabled (UI.widgets (App.window st)) = true ->
  count is_done (GUI.queue (UI.widgets (App.window st))) = 0%nat ->
  ~ GUI.input_error ge (UI.widgets (App.window st)) ->
  (process_all_images_worker e src out sc w).1 <> Ret tt ->
  pushed w (process_all_images_worker e src out sc w).2 = []
  /\ GUI.btn_start_enabled
       (UI.widgets (App.window (App.run (App.UserStart ge e src out sc w :: ops) st)))
     = false.
Proof.
  intros Hws Hen Hq0 Hok Hfail.
  assert (Hq : pushed w (process_all_images_worker e src out sc w).2 = []).
  { unfold pushed.
    destruct (worker_run_cases e src out sc w)
      as [(msg & _ & _ & ->)|[(msg & _ & _ & _ & ->)|(entries & _ & _ & Hret & _)]];
      done. }
  split; [done|].
  unfold App.run. simpl. rewrite Hen, Hq, Hws. unfold UI.start_processing.
  destruct (start_accepted ge (UI.widgets (App.window st)) Hok)
    as (x & _ & _ & _ & _ & ->). cbn [fst snd].
  set (st1 := App.State _ _).
  assert (Hstuck : App.workers st1 = []
                   /\ GUI.btn_start_enabled (UI.widgets (App.window st1)) = false
                   /\ count is_done (GUI.queue (UI.widgets (App.window st1))) = 0%nat).
  { subst st1. simpl. done. }
  clearbody st1. revert st1 Hstuck.
  induction ops as [|o ops IH]; intros st1 (H1 & H2 & H3); [done|].
  simpl. apply IH. by apply stuck_step.
Qed.

(** An output directory that cannot be created, then a poll, a click on Stop, a poll. *)
Lemma failed_setup_leaves_start_disabled_witness :
  pushed empty_world
    (process_all_images_worker Scenario.locked Sample.src Sample.out 2 empty_world).2 = []
  /\ GUI.btn_start_enabled
       (UI.widgets (App.window
          (App.run (App.UserStart Sample.desktop Scenario.locked Sample.src Sample.out 2
                      empty_world
                    :: [App.TimerPoll; App.UserStop true; App.TimerPoll])
             Scenario.idle)))
     = false.
Proof.
  apply (failed_setup_leaves_start_disabled Sample.desktop Scenario.locked Sample.src
           Sample.out 2 empty_world); [reflexivity|reflexivity|reflexivity| |discriminate].
  intros [H|[H|[H|[H|[H|[[msg H]|[x [H Hx]]]]]]]]; try discriminate.
  injection H as <-. discriminate.
Defined.
